(** * Rock-Paper-Scissors-Plus: the game state and its rule engine

    A shallow embedding of [game_state.py], [game_tools.py] and the round
    driver of [game_referee.py].

    - Python [int] is [Z] (unbounded), [bool] is [bool], [Optional[str]] is
      [option string].
    - A Python [str] is the sequence of its code points; the model covers the
      code points below 256, one [ascii] each.
    - The dictionary built by [GameState.to_dict] is a [gmap string pyval].
    - The module-level [game_state] object is threaded explicitly: a tool is
      a function from the state before the call to an outcome holding the
      state after it. *)

From Stdlib Require Import ZArith Lia Ascii String.
From stdpp Require Import base option gmap strings.

Local Open Scope string_scope.
Local Open Scope Z_scope.

(** ** Python values held by dictionaries *)

Inductive pyval : Type :=
  | PInt (n : Z)
  | PBool (b : bool)
  | PStr (s : string)
  | PNone.

(** Truth value of an object, as tested by [if x:]. *)
Definition truthy (v : pyval) : bool :=
  match v with
  | PInt n => negb (n =? 0)
  | PBool b => b
  | PStr s => negb (String.eqb s "")
  | PNone => false
  end.

Definition of_optional (o : option string) : pyval :=
  match o with
  | Some s => PStr s
  | None => PNone
  end.

(** [x == "literal"] for an [Optional[str]] argument. *)
Definition is_str (o : option string) (lit : string) : bool :=
  match o with
  | Some s => String.eqb s lit
  | None => false
  end.

(** ** [str.lower] and [str.strip] on code points below 256 *)

Definition in_range (lo hi n : N) : bool := ((lo <=? n) && (n <=? hi))%N.

Definition lower_char (c : ascii) : ascii :=
  let n := N_of_ascii c in
  if in_range 65 90 n || (in_range 192 222 n && negb (n =? 215)%N)
  then ascii_of_N (n + 32)
  else c.

Fixpoint lower (s : string) : string :=
  match s with
  | EmptyString => EmptyString
  | String c rest => String (lower_char c) (lower rest)
  end.

(** [str.isspace] for one character: TAB..CR, FS..US, space, NEL, NBSP. *)
Definition isspace (c : ascii) : bool :=
  let n := N_of_ascii c in
  in_range 9 13 n || in_range 28 32 n || (n =? 133)%N || (n =? 160)%N.

Fixpoint lstrip (s : string) : string :=
  match s with
  | EmptyString => EmptyString
  | String c rest => if isspace c then lstrip rest else s
  end.

Fixpoint rstrip (s : string) : string :=
  match s with
  | EmptyString => EmptyString
  | String c rest =>
      match rstrip rest with
      | EmptyString => if isspace c then EmptyString else String c EmptyString
      | kept => String c kept
      end
  end.

Definition strip (s : string) : string := lstrip (rstrip s).

(** ** game_state.py *)

Record GameState : Type := mkGameState {
  current_round : Z;
  user_score : Z;
  bot_score : Z;
  user_bomb_used : bool;
  bot_bomb_used : bool;
  game_over : bool;
  last_user_move : option string;
  last_bot_move : option string;
  last_round_result : option string
}.

(** [GameState()]: every field at its declared default. *)
Definition GameState_default : GameState :=
  mkGameState 0 0 0 false false false None None None.

(** Attribute assignments [self.f = v]. *)
Definition set_current_round (v : Z) (g : GameState) : GameState :=
  mkGameState v (user_score g) (bot_score g) (user_bomb_used g)
    (bot_bomb_used g) (game_over g) (last_user_move g) (last_bot_move g)
    (last_round_result g).
Definition set_user_score (v : Z) (g : GameState) : GameState :=
  mkGameState (current_round g) v (bot_score g) (user_bomb_used g)
    (bot_bomb_used g) (game_over g) (last_user_move g) (last_bot_move g)
    (last_round_result g).
Definition set_bot_score (v : Z) (g : GameState) : GameState :=
  mkGameState (current_round g) (user_score g) v (user_bomb_used g)
    (bot_bomb_used g) (game_over g) (last_user_move g) (last_bot_move g)
    (last_round_result g).
Definition set_user_bomb_used (v : bool) (g : GameState) : GameState :=
  mkGameState (current_round g) (user_score g) (bot_score g) v
    (bot_bomb_used g) (game_over g) (last_user_move g) (last_bot_move g)
    (last_round_result g).
Definition set_bot_bomb_used (v : bool) (g : GameState) : GameState :=
  mkGameState (current_round g) (user_score g) (bot_score g)
    (user_bomb_used g) v (game_over g) (last_user_move g) (last_bot_move g)
    (last_round_result g).
Definition set_game_over (v : bool) (g : GameState) : GameState :=
  mkGameState (current_round g) (user_score g) (bot_score g)
    (user_bomb_used g) (bot_bomb_used g) v (last_user_move g)
    (last_bot_move g) (last_round_result g).
Definition set_last_user_move (v : option string) (g : GameState) : GameState :=
  mkGameState (current_round g) (user_score g) (bot_score g)
    (user_bomb_used g) (bot_bomb_used g) (game_over g) v (last_bot_move g)
    (last_round_result g).
Definition set_last_bot_move (v : option string) (g : GameState) : GameState :=
  mkGameState (current_round g) (user_score g) (bot_score g)
    (user_bomb_used g) (bot_bomb_used g) (game_over g) (last_user_move g) v
    (last_round_result g).
Definition set_last_round_result (v : option string) (g : GameState) : GameState :=
  mkGameState (current_round g) (user_score g) (bot_score g)
    (user_bomb_used g) (bot_bomb_used g) (game_over g) (last_user_move g)
    (last_bot_move g) v.

(** [GameState.to_dict]: the dictionary literal, key by key. *)
Definition to_dict (self : GameState) : gmap string pyval :=
  <["last_round_result" := of_optional (last_round_result self)]>
  (<["last_bot_move" := of_optional (last_bot_move self)]>
  (<["last_user_move" := of_optional (last_user_move self)]>
  (<["game_over" := PBool (game_over self)]>
  (<["bot_bomb_used" := PBool (bot_bomb_used self)]>
  (<["user_bomb_used" := PBool (user_bomb_used self)]>
  (<["bot_score" := PInt (bot_score self)]>
  (<["user_score" := PInt (user_score self)]>
  (<["current_round" := PInt (current_round self)]> ∅)))))))).

(** The names of the dataclass fields, in declaration order. *)
Definition field_names : list string :=
  ["current_round"; "user_score"; "bot_score"; "user_bomb_used";
   "bot_bomb_used"; "game_over"; "last_user_move"; "last_bot_move";
   "last_round_result"].

(** A keyword argument read as a value of the annotated type: the declared
    default when the key is missing, nothing when the object passed is of
    another type. The source makes no such test; these readings only decide
    whether the instance built can be shown as a typed record. *)
Definition kw_int (data : gmap string pyval) (k : string) (dflt : Z) : option Z :=
  match data !! k with
  | None => Some dflt
  | Some (PInt n) => Some n
  | Some _ => None
  end.
Definition kw_bool (data : gmap string pyval) (k : string) (dflt : bool) : option bool :=
  match data !! k with
  | None => Some dflt
  | Some (PBool b) => Some b
  | Some _ => None
  end.
Definition kw_optional (data : gmap string pyval) (k : string) : option (option string) :=
  match data !! k with
  | None => Some None
  | Some PNone => Some None
  | Some (PStr s) => Some (Some s)
  | Some _ => None
  end.

(** A keyword argument of the generated [__init__] as the object passed, or
    the declared default when the key is missing: nothing is checked. *)
Definition kw (data : gmap string pyval) (k : string) (dflt : pyval) : pyval :=
  default dflt (data !! k).

(** The attributes the generated [__init__] assigns, one per field. *)
Definition init_attributes (data : gmap string pyval) : gmap string pyval :=
  <["last_round_result" := kw data "last_round_result" PNone]>
  (<["last_bot_move" := kw data "last_bot_move" PNone]>
  (<["last_user_move" := kw data "last_user_move" PNone]>
  (<["game_over" := kw data "game_over" (PBool false)]>
  (<["bot_bomb_used" := kw data "bot_bomb_used" (PBool false)]>
  (<["user_bomb_used" := kw data "user_bomb_used" (PBool false)]>
  (<["bot_score" := kw data "bot_score" (PInt 0)]>
  (<["user_score" := kw data "user_score" (PInt 0)]>
  (<["current_round" := kw data "current_round" (PInt 0)]> ∅)))))))).

(** What the constructor call gives. The instance is built whenever every
    key is a field; it is shown as a typed record when its attributes are of
    the annotated types, and by its attributes otherwise. *)
Inductive from_dict_result : Type :=
  | Built (g : GameState)
  | UnexpectedKeyword      (* TypeError: a key that is not a field *)
  | Untyped (attrs : gmap string pyval).

(** [GameState.from_dict]: the class called with the dictionary unpacked
    into keyword arguments. A key that is not a field is refused; otherwise
    the instance is built with the objects as they are. *)
Definition from_dict (data : gmap string pyval) : from_dict_result :=
  if bool_decide (dom data ⊆ list_to_set field_names) then
    default (Untyped (init_attributes data))
      (cr ← kw_int data "current_round" 0;
       us ← kw_int data "user_score" 0;
       bs ← kw_int data "bot_score" 0;
       ub ← kw_bool data "user_bomb_used" false;
       bb ← kw_bool data "bot_bomb_used" false;
       go ← kw_bool data "game_over" false;
       lu ← kw_optional data "last_user_move";
       lb ← kw_optional data "last_bot_move";
       lr ← kw_optional data "last_round_result";
       Some (Built (mkGameState cr us bs ub bb go lu lb lr)))
  else UnexpectedKeyword.

(** The attributes of the instance a construction gave, which is also the
    dictionary [to_dict] returns for it; nothing when no instance was built. *)
Definition attributes (built : from_dict_result) : option (gmap string pyval) :=
  match built with
  | Built g => Some (to_dict g)
  | Untyped attrs => Some attrs
  | UnexpectedKeyword => None
  end.

(** [GameState.reset]: nine assignments. *)
Definition reset (self : GameState) : GameState :=
  set_last_round_result None
  (set_last_bot_move None
  (set_last_user_move None
  (set_game_over false
  (set_bot_bomb_used false
  (set_user_bomb_used false
  (set_bot_score 0
  (set_user_score 0
  (set_current_round 0 self)))))))).

(** ** Tools: computations over the module-level [game_state] *)

Inductive pyexn : Type :=
  | KeyError (k : string)
  | TypeError.

Inductive outcome (A : Type) : Type :=
  | Returned (a : A) (g : GameState)
  | Raised (e : pyexn) (g : GameState).
Arguments Returned {A} a g.
Arguments Raised {A} e g.

Definition Tool (A : Type) : Type := GameState -> outcome A.

#[global] Instance tool_ret : MRet Tool := fun A a g => Returned a g.
#[global] Instance tool_bind : MBind Tool := fun A B k m g =>
  match m g with
  | Returned a g' => k a g'
  | Raised e g' => Raised e g'
  end.
#[global] Instance tool_fmap : FMap Tool := fun A B f m g =>
  match m g with
  | Returned a g' => Returned (f a) g'
  | Raised e g' => Raised e g'
  end.

(** Reading the global, assigning to its attributes, raising. *)
Definition get_global : Tool GameState := fun g => Returned g g.
Definition assign (f : GameState -> GameState) : Tool unit :=
  fun g => Returned tt (f g).
Definition raise {A : Type} (e : pyexn) : Tool A := fun g => Raised e g.
Definition pass : Tool unit := mret tt.

(** The state a call leaves behind, whether it returned or raised. *)
Definition state_after {A : Type} (o : outcome A) : GameState :=
  match o with
  | Returned _ g => g
  | Raised _ g => g
  end.

(** [d[k]] on a dictionary. *)
Definition getitem (d : gmap string pyval) (k : string) : Tool pyval :=
  match d !! k with
  | Some v => mret v
  | None => raise (KeyError k)
  end.

(** [a > b] between two objects: numbers by value ([bool] counting as 0 and
    1), strings by code points, anything else is a [TypeError]. *)
Definition as_number (v : pyval) : option Z :=
  match v with
  | PInt n => Some n
  | PBool b => Some (if b then 1 else 0)
  | _ => None
  end.
Definition py_gt (a b : pyval) : Tool bool :=
  match as_number a, as_number b with
  | Some x, Some y => mret (y <? x)
  | _, _ =>
      match a, b with
      | PStr x, PStr y =>
          mret (match String.compare x y with Gt => true | _ => false end)
      | _, _ => raise TypeError
      end
  end.

(** ** game_tools.py *)

(** The dictionary returned by [validate_move]; ["move"] is present only in
    the accepting case. *)
Record validation : Type := mkValidation {
  valid : bool;
  reason : string;
  move : option string
}.

(** The dictionary returned by [resolve_round]. *)
Record round_result : Type := mkRoundResult {
  winner : string;
  user_move : string;
  bot_move : string
}.

Definition valid_moves : list string := ["rock"; "paper"; "scissors"; "bomb"].

(** [x in l] for a list of strings. *)
Definition str_in (x : string) (l : list string) : bool :=
  existsb (String.eqb x) l.

(** Tool 1. *)
Definition validate_move (move : string) (is_user : bool) : Tool validation :=
  let move := strip (lower move) in
  let accepted : Tool validation :=
    mret (mkValidation true "Move is valid" (Some move)) in
  if negb (str_in move valid_moves) then
    mret (mkValidation false
            ("Invalid move '" +:+ move
               +:+ "'. Valid moves: rock, paper, scissors, bomb")
            None)
  else if String.eqb move "bomb" then
    game_state ← get_global;
    if is_user && user_bomb_used game_state then
      mret (mkValidation false "You already used your bomb this game" None)
    else if negb is_user && bot_bomb_used game_state then
      mret (mkValidation false "Bot already used bomb" None)
    else accepted
  else accepted.

(** Tool 2. It neither reads nor writes [game_state]. *)
Definition resolve_round (user_move bot_move : string) : round_result :=
  let result :=
    if String.eqb user_move "bomb" && String.eqb bot_move "bomb" then "draw"
    else if String.eqb user_move "bomb" then "user"
    else if String.eqb bot_move "bomb" then "bot"
    else if String.eqb user_move bot_move then "draw"
    else if (String.eqb user_move "rock" && String.eqb bot_move "scissors")
            || (String.eqb user_move "scissors" && String.eqb bot_move "paper")
            || (String.eqb user_move "paper" && String.eqb bot_move "rock")
    then "user"
    else "bot" in
  mkRoundResult result user_move bot_move.

(** Tool 3. *)
Definition update_game_state (user_move bot_move round_winner : option string)
    (invalid_input : bool) : Tool (gmap string pyval) :=
  assign (fun g => set_current_round (current_round g + 1) g);;
  assign (set_last_user_move user_move);;
  assign (set_last_bot_move bot_move);;
  (if negb invalid_input then
     (if is_str round_winner "user" then
        assign (fun g => set_user_score (user_score g + 1) g);;
        assign (set_last_round_result (Some "user"))
      else if is_str round_winner "bot" then
        assign (fun g => set_bot_score (bot_score g + 1) g);;
        assign (set_last_round_result (Some "bot"))
      else
        assign (set_last_round_result (Some "draw")));;
     (if is_str user_move "bomb" then assign (set_user_bomb_used true)
      else pass);;
     (if is_str bot_move "bomb" then assign (set_bot_bomb_used true)
      else pass)
   else
     assign (set_last_round_result (Some "invalid")));;
  game_state ← get_global;
  (if 3 <=? current_round game_state then assign (set_game_over true)
   else pass);;
  game_state ← get_global;
  mret (to_dict game_state).

(** Tool 4. *)
Definition get_game_state : Tool (gmap string pyval) :=
  game_state ← get_global;
  mret (to_dict game_state).

(** What one call of [get_bot_move] can draw from the [random] module:
    [random.random()] yields the float [unit_draw / 2^53], and
    [random.choice] indexes its list at [index_draw] reduced below the
    length of the list. *)
Record random_draws : Type := mkDraws {
  unit_draw : Z;
  index_draw : nat
}.

(** [random.random() < 0.3]: the literal is the float
    [5404319552844595 / 2^54], so the comparison is one of integers. *)
Definition below_0_3 (r : random_draws) : bool :=
  2 * unit_draw r <? 5404319552844595.

(** [random.choice(l)] for a non-empty list: the element at the drawn index. *)
Definition random_choice (r : random_draws) (l : list string) : string :=
  nth (index_draw r mod length l)%nat l "".

(** Tool 5. *)
Definition get_bot_move (r : random_draws) : Tool string :=
  let available_moves := ["rock"; "paper"; "scissors"] in
  game_state ← get_global;
  if negb (bot_bomb_used game_state) && (1 <=? current_round game_state) then
    if below_0_3 r then mret "bomb"
    else mret (random_choice r available_moves)
  else mret (random_choice r available_moves).

(** Tool 6. *)
Definition reset_game : Tool (gmap string pyval) :=
  assign reset;;
  game_state ← get_global;
  mret (to_dict game_state).

(** ** game_referee.py: one round *)

(** [GameReferee._get_winner_text]. *)
Definition _get_winner_text (winner user_move bot_move : string) : string :=
  let fallback := winner +:+ " wins!" in
  if String.eqb winner "draw" then "It's a draw! Both played the same move."
  else if String.eqb winner "user" then
    if String.eqb user_move "bomb" then "You win! Bomb destroys everything!"
    else if String.eqb user_move "rock" then "You win! Rock crushes scissors."
    else if String.eqb user_move "paper" then "You win! Paper covers rock."
    else if String.eqb user_move "scissors" then "You win! Scissors cuts paper."
    else fallback
  else
    if String.eqb bot_move "bomb" then "Bot wins! Bomb destroys everything!"
    else if String.eqb bot_move "rock" then "Bot wins. Rock crushes scissors."
    else if String.eqb bot_move "paper" then "Bot wins. Paper covers rock."
    else if String.eqb bot_move "scissors" then "Bot wins. Scissors cuts paper."
    else fallback.

(** The closing block of a match: which banner line is printed, and the two
    scores interpolated into the final score line. *)
Inductive banner : Type := YouWin | BotWins | ItsADraw.

Record final_result : Type := mkFinal {
  final_banner : banner;
  final_user_score : pyval;
  final_bot_score : pyval
}.

(** [GameReferee._get_final_result]. *)
Definition _get_final_result (state : gmap string pyval) : Tool final_result :=
  us ← getitem state "user_score";
  bs ← getitem state "bot_score";
  user_ahead ← py_gt us bs;
  if (user_ahead : bool) then mret (mkFinal YouWin us bs)
  else
    bot_ahead ← py_gt bs us;
    if (bot_ahead : bool) then mret (mkFinal BotWins us bs)
    else mret (mkFinal ItsADraw us bs).

(** The round block of a response, as the values interpolated into it. *)
Record round_report : Type := mkReport {
  shown_round : pyval;
  shown_user_move : string;
  shown_bot_move : option string;
  shown_result : string;
  shown_reason : option string;
  shown_user_score : pyval;
  shown_bot_score : pyval;
  shown_final : option final_result
}.

(** What [process_user_input] returns: a fixed message, or a round block. *)
Inductive response : Type :=
  | Message (text : string)
  | Round (report : round_report).

Definition already_over : string :=
  "Game is already over! Type 'quit' to exit or restart.".

(** [validation['move']]. *)
Definition validated_move (v : validation) : Tool string :=
  match move v with
  | Some m => mret m
  | None => raise (KeyError "move")
  end.

(** The tail shared by both branches: read the state back and append the
    closing block when the match has ended. *)
Definition closing_block (state : gmap string pyval) : Tool (option final_result) :=
  over ← getitem state "game_over";
  if truthy over then Some <$> _get_final_result state
  else mret None.

(** [GameReferee.process_user_input]. *)
Definition process_user_input (r : random_draws) (user_input : string)
    : Tool response :=
  state ← get_game_state;
  over ← getitem state "game_over";
  if truthy over then mret (Message already_over)
  else
    validation ← validate_move user_input true;
    if negb (valid validation) then
      update_game_state (Some user_input) None (Some "invalid") true;;
      state ← get_game_state;
      round ← getitem state "current_round";
      us ← getitem state "user_score";
      bs ← getitem state "bot_score";
      final ← closing_block state;
      mret (Round (mkReport round user_input None
                     "Invalid move! This round is wasted."
                     (Some (reason validation)) us bs final))
    else
      bot_move ← get_bot_move r;
      user_move ← validated_move validation;
      let result := resolve_round user_move bot_move in
      update_game_state (Some user_move) (Some bot_move)
        (Some (winner result)) false;;
      state ← get_game_state;
      let winner_text := _get_winner_text (winner result) user_move bot_move in
      round ← getitem state "current_round";
      us ← getitem state "user_score";
      bs ← getitem state "bot_score";
      final ← closing_block state;
      mret (Round (mkReport round user_move (Some bot_move) winner_text
                     None us bs final)).

(** A match driven through the referee: one [process_user_input] call per
    line typed, each with its own random draws. *)
Fixpoint play (turns : list (random_draws * string)) (g : GameState) : GameState :=
  match turns with
  | [] => g
  | (r, user_input) :: rest =>
      play rest (state_after (process_user_input r user_input g))
  end.

(** The calls a caller of the tool layer can make within one match: the
    entries of [FUNCTION_MAP] other than [reset_game], which ends the match
    and starts the next one. *)
Inductive tool_call : Type :=
  | CallValidateMove (move : string) (is_user : bool)
  | CallResolveRound (user_move bot_move : string)
  | CallUpdateGameState (user_move bot_move round_winner : option string)
      (invalid_input : bool)
  | CallGetGameState
  | CallGetBotMove (r : random_draws).

Definition run_call (c : tool_call) (g : GameState) : GameState :=
  match c with
  | CallValidateMove m u => state_after (validate_move m u g)
  | CallResolveRound _ _ => g
  | CallUpdateGameState um bm w inv => state_after (update_game_state um bm w inv g)
  | CallGetGameState => state_after (get_game_state g)
  | CallGetBotMove r => state_after (get_bot_move r g)
  end.

Definition run_calls (cs : list tool_call) (g : GameState) : GameState :=
  fold_left (fun g c => run_call c g) cs g.

(** ** Vocabulary of the properties *)

(** The standard beats-relation: rock beats scissors, scissors beats paper,
    paper beats rock. *)
Inductive beats : string -> string -> Prop :=
  | rock_beats_scissors : beats "rock" "scissors"
  | scissors_beats_paper : beats "scissors" "paper"
  | paper_beats_rock : beats "paper" "rock".

(** A match after its third round: rock against scissors, an unrecognised
    input, then the user's bomb against paper. *)
Definition finished_match : GameState :=
  mkGameState 3 2 0 true false true (Some "bomb") (Some "paper") (Some "user").

(** What the referee keeps true of every state it produces. *)
Definition round_in_range (g : GameState) : Prop :=
  0 <= current_round g <= 3 /\ (current_round g = 3 -> game_over g = true).

(** The same outcome seen from the other side of the table. *)
Definition swap_winner (w : string) : string :=
  if String.eqb w "user" then "bot"
  else if String.eqb w "bot" then "user"
  else w.

(** The calls that advance the state. *)
Definition is_update_call (c : tool_call) : bool :=
  match c with
  | CallUpdateGameState _ _ _ _ => true
  | _ => false
  end.

(** * Properties *)

(** ** The serialized record *)

Section Serialization.
Variable g : GameState.

Lemma to_dict_current_round : to_dict g !! "current_round" = Some (PInt (current_round g)).
Proof. unfold to_dict. by simplify_map_eq. Qed.

Lemma to_dict_user_score : to_dict g !! "user_score" = Some (PInt (user_score g)).
Proof. unfold to_dict. by simplify_map_eq. Qed.

Lemma to_dict_bot_score : to_dict g !! "bot_score" = Some (PInt (bot_score g)).
Proof. unfold to_dict. by simplify_map_eq. Qed.

Lemma to_dict_user_bomb_used : to_dict g !! "user_bomb_used" = Some (PBool (user_bomb_used g)).
Proof. unfold to_dict. by simplify_map_eq. Qed.

Lemma to_dict_bot_bomb_used : to_dict g !! "bot_bomb_used" = Some (PBool (bot_bomb_used g)).
Proof. unfold to_dict. by simplify_map_eq. Qed.

Lemma to_dict_game_over : to_dict g !! "game_over" = Some (PBool (game_over g)).
Proof. unfold to_dict. by simplify_map_eq. Qed.

Lemma to_dict_last_user_move : to_dict g !! "last_user_move" = Some (of_optional (last_user_move g)).
Proof. unfold to_dict. by simplify_map_eq. Qed.

Lemma to_dict_last_bot_move : to_dict g !! "last_bot_move" = Some (of_optional (last_bot_move g)).
Proof. unfold to_dict. by simplify_map_eq. Qed.

Lemma to_dict_last_round_result : to_dict g !! "last_round_result" = Some (of_optional (last_round_result g)).
Proof. unfold to_dict. by simplify_map_eq. Qed.

Lemma to_dict_dom : dom (to_dict g) = list_to_set field_names.
Proof.
  unfold to_dict, field_names. rewrite !dom_insert_L, dom_empty_L. simpl.
  set_solver.
Qed.
End Serialization.

Lemma kw_optional_of_optional (data : gmap string pyval) k o :
  data !! k = Some (of_optional o) -> kw_optional data k = Some o.
Proof. unfold kw_optional. intros ->. by destruct o. Qed.

(** C9. Rebuilding a state from its serialized record gives the state back,
    field for field, and the record has exactly the nine fields of the
    dataclass as its keys. *)
Theorem from_dict_to_dict (s : GameState) :
  from_dict (to_dict s) = Built s
  /\ dom (to_dict s) = list_to_set field_names
  /\ size (to_dict s) = 9%nat
  /\ NoDup field_names.
Proof.
  split; [|split; [apply to_dict_dom|split]].
  - unfold from_dict. rewrite to_dict_dom, bool_decide_eq_true_2 by done.
    unfold kw_int, kw_bool.
    rewrite to_dict_current_round, to_dict_user_score, to_dict_bot_score,
      to_dict_user_bomb_used, to_dict_bot_bomb_used, to_dict_game_over.
    rewrite (kw_optional_of_optional _ _ _ (to_dict_last_user_move s)),
      (kw_optional_of_optional _ _ _ (to_dict_last_bot_move s)),
      (kw_optional_of_optional _ _ _ (to_dict_last_round_result s)).
    by destruct s.
  - destruct s. vm_compute. reflexivity.
  - compute_done.
Qed.

(** ** Reset *)

(** C7. Whatever the state before, [reset] leaves the zero state: round 0,
    both scores 0, both bomb flags and [game_over] false, and the three
    last-round fields absent; [reset_game] installs it and returns its
    record. *)
Theorem reset_is_zero_state (prior : GameState) :
  reset prior = mkGameState 0 0 0 false false false None None None
  /\ reset_game prior
     = Returned (to_dict (mkGameState 0 0 0 false false false None None None))
         (mkGameState 0 0 0 false false false None None None).
Proof. split; reflexivity. Qed.

(** ** Round resolution *)

Lemma beats_eqb (u b : string) :
  beats u b <->
  (String.eqb u "rock" && String.eqb b "scissors")
  || (String.eqb u "scissors" && String.eqb b "paper")
  || (String.eqb u "paper" && String.eqb b "rock") = true.
Proof.
  split.
  - by destruct 1.
  - rewrite !orb_true_iff, !andb_true_iff, !String.eqb_eq.
    intros [[[-> ->]|[-> ->]]|[-> ->]]; constructor.
Qed.

(** The winner computed by [resolve_round], one test at a time. *)
Lemma winner_cases (u b : string) :
  winner (resolve_round u b) =
    if String.eqb u "bomb" && String.eqb b "bomb" then "draw"
    else if String.eqb u "bomb" then "user"
    else if String.eqb b "bomb" then "bot"
    else if String.eqb u b then "draw"
    else if (String.eqb u "rock" && String.eqb b "scissors")
            || (String.eqb u "scissors" && String.eqb b "paper")
            || (String.eqb u "paper" && String.eqb b "rock")
    then "user" else "bot".
Proof. reflexivity. Qed.

(** C10. [resolve_round] answers for every pair of strings: the winner is
    always one of user, bot, draw, and two different non-bomb strings that
    are not one of the three winning pairs for the user (unrecognised labels
    included) give bot. *)
Theorem resolve_round_total (u b : string) :
  winner (resolve_round u b) ∈ ["user"; "bot"; "draw"]
  /\ (u <> b -> u <> "bomb" -> b <> "bomb" -> ~ beats u b ->
      winner (resolve_round u b) = "bot").
Proof.
  split.
  - rewrite winner_cases.
    repeat (case_match; [set_solver|]). set_solver.
  - intros Hne Hu Hb Hbeats. rewrite winner_cases.
    apply String.eqb_neq in Hne, Hu, Hb. rewrite Hne, Hu, Hb. simpl.
    destruct (_ || _) eqn:E; [|done].
    exfalso. apply Hbeats. by apply beats_eqb.
Qed.

Lemma resolve_round_total_witness :
  winner (resolve_round "lizard" "spock") = "bot".
Proof.
  apply (resolve_round_total "lizard" "spock"); [done..|].
  by inversion 1.
Defined.

(** C2. On validated labels [resolve_round] follows the decision order:
    bomb against bomb is a draw, a lone bomb wins for its side, equal
    non-bomb moves draw, the user wins when the user's move beats the
    bot's, and the bot wins otherwise. *)
Theorem resolve_round_rules (userMove botMove : string) :
  userMove ∈ valid_moves -> botMove ∈ valid_moves ->
  (userMove = "bomb" -> botMove = "bomb" ->
     winner (resolve_round userMove botMove) = "draw")
  /\ (userMove = "bomb" -> botMove <> "bomb" ->
     winner (resolve_round userMove botMove) = "user")
  /\ (userMove <> "bomb" -> botMove = "bomb" ->
     winner (resolve_round userMove botMove) = "bot")
  /\ (userMove <> "bomb" -> userMove = botMove ->
     winner (resolve_round userMove botMove) = "draw")
  /\ (userMove <> "bomb" -> botMove <> "bomb" -> beats userMove botMove ->
     winner (resolve_round userMove botMove) = "user")
  /\ (userMove <> "bomb" -> botMove <> "bomb" -> userMove <> botMove ->
     ~ beats userMove botMove ->
     winner (resolve_round userMove botMove) = "bot").
Proof.
  unfold valid_moves. intros Hu Hb.
  repeat (apply elem_of_cons in Hu as [->|Hu]);
    [..|by apply elem_of_nil in Hu];
    (repeat (apply elem_of_cons in Hb as [->|Hb]);
     [..|by apply elem_of_nil in Hb]).
  all: repeat split; intros; try done.
  all: try match goal with H : beats _ _ |- _ => by inversion H end.
  all: exfalso; match goal with H : ~ beats _ _ |- _ => apply H end;
    constructor.
Qed.

Lemma resolve_round_rules_witness :
  winner (resolve_round "scissors" "paper") = "user"
  /\ winner (resolve_round "bomb" "bomb") = "draw"
  /\ winner (resolve_round "rock" "bomb") = "bot".
Proof.
  assert (Hs : "scissors" ∈ valid_moves) by repeat constructor.
  assert (Hp : "paper" ∈ valid_moves) by repeat constructor.
  assert (Hb : "bomb" ∈ valid_moves) by repeat constructor.
  assert (Hr : "rock" ∈ valid_moves) by repeat constructor.
  destruct (resolve_round_rules "scissors" "paper" Hs Hp)
    as (_ & _ & _ & _ & Hbeats & _).
  destruct (resolve_round_rules "bomb" "bomb" Hb Hb) as (Hboth & _).
  destruct (resolve_round_rules "rock" "bomb" Hr Hb) as (_ & _ & Hbot & _).
  split; [|split].
  - apply Hbeats; [done | done | constructor].
  - by apply Hboth.
  - by apply Hbot.
Defined.

(** ** State advancement *)

Ltac run_tool :=
  unfold mbind, tool_bind, fmap, tool_fmap, assign, get_global, pass, raise,
    mret, tool_ret, state_after; cbn beta iota.

(** Enter the first statement of a sequence. *)
Ltac enter_bind := unfold mbind at 1, tool_bind at 1.

Ltac split_tests :=
  repeat match goal with
    | |- context [if ?c then _ else _] => destruct c eqn:?; cbn beta iota
    end.

(** [update_game_state] never raises, and returns the record of the state it
    leaves behind. *)
Lemma update_game_state_returns um bm w inv g :
  update_game_state um bm w inv g
  = Returned (to_dict (state_after (update_game_state um bm w inv g)))
      (state_after (update_game_state um bm w inv g)).
Proof.
  unfold update_game_state. run_tool.
  destruct inv; cbn [negb]; split_tests; reflexivity.
Qed.

(** C3. A round advanced with [invalid_input] set moves [current_round] up
    by exactly one and records the result invalid, while both scores and
    both bomb flags keep the values they had before the call. *)
Theorem invalid_round_frame (um bm w : option string) (g : GameState) :
  exists g',
    update_game_state um bm w true g = Returned (to_dict g') g'
    /\ current_round g' = current_round g + 1
    /\ last_round_result g' = Some "invalid"
    /\ user_score g' = user_score g
    /\ bot_score g' = bot_score g
    /\ user_bomb_used g' = user_bomb_used g
    /\ bot_bomb_used g' = bot_bomb_used g.
Proof.
  eexists. split; [apply update_game_state_returns|].
  unfold update_game_state. run_tool.
  by split_tests.
Qed.

(** C4. A round advanced with [invalid_input] unset and a winner among
    user, bot, draw adds one to the winner's score (to neither on a draw),
    records the winner as the round result, and sets the bomb flag of each
    side whose move was bomb, whoever won; the flag of a side that did not
    play bomb is left as it was. *)
Theorem valid_round_effect (um bm : option string) (w : string) (g : GameState) :
  w ∈ ["user"; "bot"; "draw"] ->
  exists g',
    update_game_state um bm (Some w) false g = Returned (to_dict g') g'
    /\ user_score g' = user_score g + (if bool_decide (w = "user") then 1 else 0)
    /\ bot_score g' = bot_score g + (if bool_decide (w = "bot") then 1 else 0)
    /\ last_round_result g' = Some w
    /\ (um = Some "bomb" -> user_bomb_used g' = true)
    /\ (bm = Some "bomb" -> bot_bomb_used g' = true)
    /\ (um <> Some "bomb" -> user_bomb_used g' = user_bomb_used g)
    /\ (bm <> Some "bomb" -> bot_bomb_used g' = bot_bomb_used g).
Proof.
  intros Hw. eexists. split; [apply update_game_state_returns|].
  assert (Hum : is_str um "bomb" = true <-> um = Some "bomb").
  { destruct um as [m|]; simpl; [|done].
    rewrite String.eqb_eq. split; congruence. }
  assert (Hbm : is_str bm "bomb" = true <-> bm = Some "bomb").
  { destruct bm as [m|]; simpl; [|done].
    rewrite String.eqb_eq. split; congruence. }
  unfold update_game_state. run_tool.
  repeat (apply elem_of_cons in Hw as [->|Hw]); [..|by apply elem_of_nil in Hw].
  all: cbn [negb is_str String.eqb Ascii.eqb Bool.eqb].
  all: destruct (is_str um "bomb") eqn:Eu, (is_str bm "bomb") eqn:Eb;
    cbn beta iota; split_tests; cbn.
  all: repeat split; try lia; try done.
  all: try (intros Hx; apply Hum in Hx; congruence).
  all: try (intros Hx; apply Hbm in Hx; congruence).
  all: try (intros Hx; exfalso; apply Hx; (apply Hum || apply Hbm); done).
Qed.

Lemma valid_round_effect_witness :
  exists g',
    update_game_state (Some "bomb") (Some "bomb") (Some "draw") false
      (mkGameState 1 1 0 false false false (Some "rock") (Some "scissors")
         (Some "user"))
    = Returned (to_dict g') g'
    /\ user_score g' = 1 /\ bot_score g' = 0
    /\ last_round_result g' = Some "draw"
    /\ user_bomb_used g' = true /\ bot_bomb_used g' = true.
Proof.
  destruct (valid_round_effect (Some "bomb") (Some "bomb") "draw"
              (mkGameState 1 1 0 false false false (Some "rock")
                 (Some "scissors") (Some "user")))
    as (g' & Hret & Hus & Hbs & Hres & Hub & Hbb & _).
  { repeat constructor. }
  exists g'. repeat split; auto.
Defined.

(** ** Move validation *)

Lemma str_in_elem_of (x : string) (l : list string) :
  str_in x l = true <-> x ∈ l.
Proof.
  unfold str_in. rewrite existsb_exists. split.
  - intros (y & Hy & Heq). apply String.eqb_eq in Heq as ->.
    by apply list_elem_of_In.
  - intros Hx. exists x. split; [by apply list_elem_of_In|].
    apply String.eqb_refl.
Qed.

(** C6. [validate_move] rejects a text exactly when its lowercased, trimmed
    form is not one of rock, paper, scissors, bomb, or is bomb while the
    bomb flag of the submitting side is already set; otherwise it accepts
    and carries that normalized label; either way [game_state] is left as it
    was. *)
Theorem validate_move_spec (moveText : string) (isUser : bool) (g : GameState) :
  exists v,
    validate_move moveText isUser g = Returned v g
    /\ (valid v = false <->
        strip (lower moveText) ∉ valid_moves
        \/ (strip (lower moveText) = "bomb"
            /\ (if isUser then user_bomb_used g else bot_bomb_used g) = true))
    /\ (valid v = true -> move v = Some (strip (lower moveText))).
Proof.
  unfold validate_move. run_tool.
  destruct (str_in _ valid_moves) eqn:Hin; cbn [negb].
  - apply str_in_elem_of in Hin.
    destruct (String.eqb_spec (strip (lower moveText)) "bomb") as [Hb|Hb];
      [destruct isUser; cbn [negb andb];
       [destruct (user_bomb_used g)|destruct (bot_bomb_used g)]|];
      (eexists; split; [reflexivity|]); cbn [valid move];
      intuition congruence.
  - assert (strip (lower moveText) ∉ valid_moves) as Hout.
    { rewrite <- str_in_elem_of. congruence. }
    eexists. split; [reflexivity|]. cbn [valid move]. intuition congruence.
Qed.

(** ** The bot's move *)

Lemma random_choice_standard (r : random_draws) :
  random_choice r ["rock"; "paper"; "scissors"] ∈ ["rock"; "paper"; "scissors"]
  /\ random_choice r ["rock"; "paper"; "scissors"] <> "bomb".
Proof.
  unfold random_choice. cbn [length].
  pose proof (Nat.mod_upper_bound (index_draw r) 3 ltac:(done)) as Hlt.
  destruct (index_draw r mod 3)%nat as [|[|[|k]]]; cbn [nth];
    [split; [repeat constructor|done]..|lia].
Qed.

(** C8. Whatever the random source draws, [get_bot_move] does not answer
    bomb when no round has been played yet or when the bot's bomb is
    already spent: the answer is then rock, paper or scissors. *)
Theorem bot_move_without_bomb (r : random_draws) (g : GameState) :
  current_round g = 0 \/ bot_bomb_used g = true ->
  exists m,
    get_bot_move r g = Returned m g
    /\ m <> "bomb"
    /\ m ∈ ["rock"; "paper"; "scissors"].
Proof.
  intros Hcase. unfold get_bot_move. run_tool.
  assert (negb (bot_bomb_used g) && (1 <=? current_round g) = false) as ->.
  { destruct Hcase as [-> | ->]; [apply andb_false_r|done]. }
  eexists. split; [reflexivity|].
  destruct (random_choice_standard r). by split.
Qed.

Lemma bot_move_without_bomb_witness :
  exists m,
    get_bot_move (mkDraws 0 5) (mkGameState 0 0 0 false false false None None None)
    = Returned m (mkGameState 0 0 0 false false false None None None)
    /\ m <> "bomb"
    /\ m ∈ ["rock"; "paper"; "scissors"].
Proof.
  apply (bot_move_without_bomb (mkDraws 0 5)
           (mkGameState 0 0 0 false false false None None None)).
  left. reflexivity.
Defined.

(** ** One round through the referee *)

Lemma get_game_state_returns (g : GameState) :
  get_game_state g = Returned (to_dict g) g.
Proof. reflexivity. Qed.

Lemma getitem_present (d : gmap string pyval) (k : string) (v : pyval) (g : GameState) :
  d !! k = Some v -> getitem d k g = Returned v g.
Proof. unfold getitem. by intros ->. Qed.

Lemma update_game_state_total um bm w inv g :
  exists g', update_game_state um bm w inv g = Returned (to_dict g') g'.
Proof. eexists. apply update_game_state_returns. Qed.

Lemma validate_move_returns (m : string) (is_user : bool) (g : GameState) :
  exists v,
    validate_move m is_user g = Returned v g
    /\ (valid v = true -> exists label, move v = Some label).
Proof.
  unfold validate_move. run_tool.
  split_tests; eexists; (split; [reflexivity|]); cbn [valid move]; eauto;
    discriminate.
Qed.

Lemma get_bot_move_returns (r : random_draws) (g : GameState) :
  exists m, get_bot_move r g = Returned m g.
Proof. unfold get_bot_move. run_tool. split_tests; eauto. Qed.

Lemma closing_block_returns (g g0 : GameState) :
  exists final, closing_block (to_dict g) g0 = Returned final g0.
Proof.
  unfold closing_block, _get_final_result. run_tool.
  rewrite (getitem_present _ _ _ g0 (to_dict_game_over g)).
  cbn [truthy]. destruct (game_over g); [|eauto].
  rewrite (getitem_present _ _ _ g0 (to_dict_user_score g)).
  rewrite (getitem_present _ _ _ g0 (to_dict_bot_score g)).
  unfold py_gt. cbn [as_number]. run_tool. split_tests; eauto.
Qed.

(** The statements after [update_game_state] in either branch: the state
    is read back, its counters are looked up, the closing block is built. *)
Ltac read_back g1 :=
  enter_bind; rewrite get_game_state_returns;
  enter_bind; rewrite (getitem_present _ _ _ g1 (to_dict_current_round g1));
  enter_bind; rewrite (getitem_present _ _ _ g1 (to_dict_user_score g1));
  enter_bind; rewrite (getitem_present _ _ _ g1 (to_dict_bot_score g1));
  enter_bind;
  let final := fresh "final" in
  destruct (closing_block_returns g1 g1) as (final & ->);
  eexists; reflexivity.

(** With the match still open, a call plays exactly one round: it returns a
    round block and leaves the state one [update_game_state] call away. *)
Lemma process_user_input_open (r : random_draws) (user_input : string) (g : GameState) :
  game_over g = false ->
  exists um bm w inv report,
    process_user_input r user_input g
    = Returned (Round report) (state_after (update_game_state um bm w inv g)).
Proof.
  intros Hopen. unfold process_user_input.
  enter_bind. rewrite get_game_state_returns.
  enter_bind.
  rewrite (getitem_present _ _ _ g (to_dict_game_over g)).
  cbn [truthy]. rewrite Hopen.
  enter_bind.
  destruct (validate_move_returns user_input true g) as (v & -> & Hmove).
  destruct (valid v) eqn:Hvalid; cbn [negb].
  - destruct (Hmove eq_refl) as (label & Hlabel).
    enter_bind.
    destruct (get_bot_move_returns r g) as (bm & ->).
    unfold validated_move. rewrite Hlabel.
    enter_bind. unfold mret at 1, tool_ret at 1.
    exists (Some label), (Some bm), (Some (winner (resolve_round label bm))), false.
    destruct (update_game_state_total (Some label) (Some bm)
                (Some (winner (resolve_round label bm))) false g) as (g1 & Hg1).
    cbn zeta. enter_bind. rewrite Hg1. read_back g1.
  - exists (Some user_input), None, (Some "invalid"), true.
    destruct (update_game_state_total (Some user_input) None
                (Some "invalid") true g) as (g1 & Hg1).
    enter_bind. rewrite Hg1. read_back g1.
Qed.

(** ** A finished match *)

(** A match played through the referee: rock beats the bot's scissors, an
    unrecognised input wastes the second round, the bomb beats paper. *)
Example three_rounds_played :
  play [(mkDraws 0 2, "Rock"); (mkDraws 0 0, "bad");
        (mkDraws 4503599627370496 1, " BOMB ")] (reset GameState_default)
  = finished_match.
Proof. reflexivity. Qed.

(** [update_game_state] carries no guard of its own: on a finished match it
    returns the updated record like on any other state, and the round
    counter, the last moves and the last result have all changed. *)
Lemma update_game_state_on_finished_match :
  game_over finished_match = true
  /\ update_game_state (Some "rock") (Some "scissors") (Some "user") false
       finished_match
     = Returned
         (to_dict (mkGameState 4 3 0 true false true (Some "rock")
                     (Some "scissors") (Some "user")))
         (mkGameState 4 3 0 true false true (Some "rock") (Some "scissors")
            (Some "user"))
  /\ state_after
       (update_game_state (Some "rock") (Some "scissors") (Some "user") false
          finished_match)
     <> finished_match.
Proof. split; [reflexivity|]. split; [reflexivity|]. discriminate. Qed.

(** C1, amended. The refusal lives in the referee: once [game_over] is set,
    [process_user_input] answers every input with the same fixed
    already-over message, calls no tool that writes, and leaves every field
    of the state as it was. *)
Theorem finished_match_refuses_round (r : random_draws) (user_input : string)
    (g : GameState) :
  game_over g = true ->
  process_user_input r user_input g = Returned (Message already_over) g.
Proof.
  intros Hover. unfold process_user_input.
  enter_bind. rewrite get_game_state_returns.
  enter_bind.
  rewrite (getitem_present _ _ _ g (to_dict_game_over g)).
  cbn [truthy]. by rewrite Hover.
Qed.

Lemma finished_match_refuses_round_witness :
  process_user_input (mkDraws 0 0) "rock" finished_match
  = Returned (Message already_over) finished_match.
Proof.
  apply (finished_match_refuses_round (mkDraws 0 0) "rock" finished_match).
  reflexivity.
Defined.

(** ** The round counter *)

Lemma update_game_state_round um bm w inv g :
  current_round (state_after (update_game_state um bm w inv g))
  = current_round g + 1.
Proof.
  unfold update_game_state. run_tool.
  destruct inv; cbn [negb]; by split_tests.
Qed.

Lemma update_game_state_game_over um bm w inv g :
  3 <= current_round g + 1 ->
  game_over (state_after (update_game_state um bm w inv g)) = true.
Proof.
  intros Hge. apply Z.leb_le in Hge.
  unfold update_game_state. run_tool.
  destruct inv; cbn [negb]; split_tests; cbn in *; congruence.
Qed.

Lemma process_user_input_cases (r : random_draws) (user_input : string) (g : GameState) :
  (game_over g = true /\ state_after (process_user_input r user_input g) = g)
  \/ (game_over g = false
      /\ exists um bm w inv,
           state_after (process_user_input r user_input g)
           = state_after (update_game_state um bm w inv g)).
Proof.
  destruct (game_over g) eqn:Hover.
  - left. split; [done|].
    unfold process_user_input.
    enter_bind. rewrite get_game_state_returns.
    enter_bind.
    rewrite (getitem_present _ _ _ g (to_dict_game_over g)).
    cbn [truthy]. by rewrite Hover.
  - right. split; [done|].
    destruct (process_user_input_open r user_input g Hover)
      as (um & bm & w & inv & report & ->).
    by exists um, bm, w, inv.
Qed.

Lemma round_in_range_step (r : random_draws) (user_input : string) (g : GameState) :
  round_in_range g ->
  round_in_range (state_after (process_user_input r user_input g)).
Proof.
  intros [Hrange Hlast].
  destruct (process_user_input_cases r user_input g)
    as [[_ ->]|[Hopen (um & bm & w & inv & ->)]]; [done|].
  assert (current_round g <> 3) by (intros E; apply Hlast in E; congruence).
  split.
  - rewrite update_game_state_round. lia.
  - rewrite update_game_state_round. intros E.
    apply update_game_state_game_over. lia.
Qed.

Lemma round_monotone_step (r : random_draws) (user_input : string) (g : GameState) :
  current_round g <= current_round (state_after (process_user_input r user_input g)).
Proof.
  destruct (process_user_input_cases r user_input g)
    as [[_ ->]|[_ (um & bm & w & inv & ->)]]; [done|].
  rewrite update_game_state_round. lia.
Qed.

Lemma round_in_range_play turns g :
  round_in_range g -> round_in_range (play turns g).
Proof.
  revert g. induction turns as [|[r user_input] rest IH]; intros g Hg; [done|].
  cbn [play]. apply IH. by apply round_in_range_step.
Qed.

Lemma round_monotone_play turns g :
  current_round g <= current_round (play turns g).
Proof.
  revert g. induction turns as [|[r user_input] rest IH]; intros g; [done|].
  cbn [play]. etrans; [apply round_monotone_step|apply IH].
Qed.

Lemma run_call_round (c : tool_call) (g : GameState) :
  current_round g <= current_round (run_call c g).
Proof.
  destruct c as [m u|u b|um bm w inv| |r]; cbn [run_call].
  - by destruct (validate_move_returns m u g) as (v & -> & _).
  - done.
  - rewrite update_game_state_round. lia.
  - done.
  - by destruct (get_bot_move_returns r g) as (m & ->).
Qed.

(** Four direct calls of the state-advancing tool after a reset: nothing
    stops the fourth, and the counter leaves the range. *)
Lemma four_updates_leave_range :
  current_round
    (run_calls
       [CallUpdateGameState (Some "rock") (Some "paper") (Some "bot") false;
        CallUpdateGameState (Some "zzz") None (Some "invalid") true;
        CallUpdateGameState (Some "paper") (Some "rock") (Some "user") false;
        CallUpdateGameState (Some "rock") (Some "rock") (Some "draw") false]
       (reset GameState_default)) = 4
  /\ ~ (0 <= current_round
              (run_calls
                 [CallUpdateGameState (Some "rock") (Some "paper") (Some "bot") false;
                  CallUpdateGameState (Some "zzz") None (Some "invalid") true;
                  CallUpdateGameState (Some "paper") (Some "rock") (Some "user") false;
                  CallUpdateGameState (Some "rock") (Some "rock") (Some "draw") false]
                 (reset GameState_default)) <= 3).
Proof. split; [reflexivity|]. vm_compute. intros [_ H]. by apply H. Qed.

Lemma run_calls_round (cs : list tool_call) (g : GameState) :
  current_round g <= current_round (run_calls cs g).
Proof.
  revert g. induction cs as [|c rest IH]; intros g; [done|].
  unfold run_calls. cbn [fold_left]. fold (run_calls rest (run_call c g)).
  etrans; [apply run_call_round|apply IH].
Qed.

(** C5, amended. In every state reached from a reset by rounds played
    through [process_user_input], whatever is typed and whatever is drawn,
    [current_round] lies between 0 and 3 and does not decrease as play goes
    on; and within a match no sequence of calls of [validate_move],
    [resolve_round], [update_game_state], [get_game_state] and
    [get_bot_move] lowers it, from any state. *)
Theorem current_round_bounded_through_referee
    (prior : GameState) (turns more : list (random_draws * string)) :
  0 <= current_round (play turns (reset prior)) <= 3
  /\ current_round (play turns (reset prior))
     <= current_round (play more (play turns (reset prior)))
  /\ (forall (cs : list tool_call) (g : GameState),
        current_round g <= current_round (run_calls cs g)).
Proof.
  split; [|split].
  - apply (round_in_range_play turns (reset prior)). by split.
  - apply round_monotone_play.
  - apply run_calls_round.
Qed.

(** * Further properties of the code *)

(** ** Building a state from a dictionary *)

(** A key that is not a field of the dataclass makes the constructor fail,
    whatever else the dictionary holds. *)
Theorem from_dict_unexpected_key (data : gmap string pyval) (k : string) :
  is_Some (data !! k) -> k ∉ field_names ->
  from_dict data = UnexpectedKeyword.
Proof.
  intros Hk Hnot. unfold from_dict.
  rewrite bool_decide_eq_false_2; [done|].
  intros Hsub. apply Hnot.
  apply (elem_of_list_to_set (C := gset string)), Hsub.
  by apply elem_of_dom.
Qed.

Lemma from_dict_unexpected_key_witness :
  from_dict (<["round" := PInt 1]> (to_dict GameState_default))
  = UnexpectedKeyword.
Proof.
  apply (from_dict_unexpected_key _ "round").
  - rewrite lookup_insert_eq. by eexists.
  - unfold field_names. intros Hin.
    repeat (apply elem_of_cons in Hin as [Heq | Hin]; [discriminate Heq|]).
    by apply elem_of_nil in Hin.
Defined.

Lemma kw_int_value (data : gmap string pyval) k dflt n :
  kw_int data k dflt = Some n -> kw data k (PInt dflt) = PInt n.
Proof.
  unfold kw_int, kw. destruct (data !! k) as [[]|]; cbn; intros; by simplify_eq.
Qed.

Lemma kw_bool_value (data : gmap string pyval) k dflt b :
  kw_bool data k dflt = Some b -> kw data k (PBool dflt) = PBool b.
Proof.
  unfold kw_bool, kw. destruct (data !! k) as [[]|]; cbn; intros; by simplify_eq.
Qed.

Lemma kw_optional_value (data : gmap string pyval) k o :
  kw_optional data k = Some o -> kw data k PNone = of_optional o.
Proof.
  unfold kw_optional, kw. destruct (data !! k) as [[]|]; cbn; intros; by simplify_eq.
Qed.

(** With only field names as keys the instance is built, and its attributes
    are the ones [__init__] assigns, typed or not. *)
Lemma from_dict_attributes (data : gmap string pyval) :
  dom data ⊆ list_to_set field_names ->
  attributes (from_dict data) = Some (init_attributes data).
Proof.
  intros Hdom. unfold from_dict. rewrite bool_decide_eq_true_2 by done.
  destruct (kw_int data "current_round" 0) as [cr|] eqn:Hcr; [|done].
  destruct (kw_int data "user_score" 0) as [us|] eqn:Hus; [|done].
  destruct (kw_int data "bot_score" 0) as [bs|] eqn:Hbs; [|done].
  destruct (kw_bool data "user_bomb_used" false) as [ub|] eqn:Hub; [|done].
  destruct (kw_bool data "bot_bomb_used" false) as [bb|] eqn:Hbb; [|done].
  destruct (kw_bool data "game_over" false) as [go|] eqn:Hgo; [|done].
  destruct (kw_optional data "last_user_move") as [lu|] eqn:Hlu; [|done].
  destruct (kw_optional data "last_bot_move") as [lb|] eqn:Hlb; [|done].
  destruct (kw_optional data "last_round_result") as [lr|] eqn:Hlr; [|done].
  cbn. unfold to_dict, init_attributes. cbn.
  by rewrite (kw_int_value _ _ _ _ Hcr), (kw_int_value _ _ _ _ Hus),
    (kw_int_value _ _ _ _ Hbs), (kw_bool_value _ _ _ _ Hub),
    (kw_bool_value _ _ _ _ Hbb), (kw_bool_value _ _ _ _ Hgo),
    (kw_optional_value _ _ _ Hlu), (kw_optional_value _ _ _ Hlb),
    (kw_optional_value _ _ _ Hlr).
Qed.

Lemma init_attributes_lookup (data : gmap string pyval) (k : string) :
  k ∈ field_names ->
  init_attributes data !! k
  = match data !! k with
    | Some v => Some v
    | None => to_dict GameState_default !! k
    end.
Proof.
  unfold field_names. intros Hin.
  repeat (apply elem_of_cons in Hin as [-> | Hin]);
    [..|by apply elem_of_nil in Hin];
    unfold init_attributes, kw; simplify_map_eq;
    match goal with |- context [data !! ?key] => by destruct (data !! key) end.
Qed.

Lemma init_attributes_dom (data : gmap string pyval) :
  dom (init_attributes data) = list_to_set field_names.
Proof.
  unfold init_attributes, field_names. rewrite !dom_insert_L, dom_empty_L.
  simpl. set_solver.
Qed.

(** From any dictionary whose keys are all field names an instance is built,
    whatever objects the values are; its attributes are exactly the nine
    fields, they hold every entry the dictionary supplied, and each field
    the dictionary left out has the value it has in a freshly constructed
    [GameState()]. *)
Theorem from_dict_keeps_entries (data : gmap string pyval) :
  (forall k, is_Some (data !! k) -> k ∈ field_names) ->
  exists attrs,
    attributes (from_dict data) = Some attrs
    /\ dom attrs = list_to_set field_names
    /\ data ⊆ attrs
    /\ (forall k, k ∈ field_names -> data !! k = None ->
          attrs !! k = to_dict GameState_default !! k).
Proof.
  intros Hkeys.
  assert (dom data ⊆ list_to_set (C := gset string) field_names) as Hdom.
  { intros k Hk. apply elem_of_list_to_set, Hkeys. by apply elem_of_dom. }
  exists (init_attributes data).
  split; [by apply from_dict_attributes|].
  split; [apply init_attributes_dom|]. split.
  - apply map_subseteq_spec. intros k v Hk.
    rewrite init_attributes_lookup, Hk; [done|].
    apply Hkeys. by eexists.
  - intros k Hin Hk. by rewrite init_attributes_lookup, Hk.
Qed.

Lemma from_dict_keeps_entries_witness :
  exists attrs,
    attributes (from_dict (<["current_round" := PBool true]>
                             (<["user_score" := PInt 2]> ∅))) = Some attrs
    /\ attrs !! "current_round" = Some (PBool true)
    /\ attrs !! "user_score" = Some (PInt 2)
    /\ attrs !! "game_over" = Some (PBool false).
Proof.
  destruct (from_dict_keeps_entries
              (<["current_round" := PBool true]> (<["user_score" := PInt 2]> ∅)))
    as (attrs & Hattrs & _ & Hsub & Hdefault).
  { intros k [v Hk].
    destruct (decide (k = "current_round")) as [-> | Hcr];
      [unfold field_names; repeat constructor|].
    rewrite lookup_insert_ne in Hk by done.
    destruct (decide (k = "user_score")) as [-> | Hus];
      [unfold field_names; repeat constructor|].
    rewrite lookup_insert_ne in Hk by done. by rewrite lookup_empty in Hk. }
  exists attrs. split; [exact Hattrs|]. split; [|split].
  - eapply lookup_weaken; [|exact Hsub]. apply lookup_insert_eq.
  - eapply lookup_weaken; [|exact Hsub].
    rewrite lookup_insert_ne by done. apply lookup_insert_eq.
  - rewrite (Hdefault "game_over"); [reflexivity| |reflexivity].
    unfold field_names. repeat constructor.
Defined.

(** ** More on state advancement *)

(** [game_over] after a call is what it was before, or true once the
    incremented counter has reached 3: the flag is raised by the third
    round and no call ever clears it. *)
Theorem update_game_state_game_over_flag um bm w inv g :
  game_over (state_after (update_game_state um bm w inv g))
  = game_over g || (3 <=? current_round g + 1).
Proof.
  unfold update_game_state. run_tool.
  destruct inv; cbn [negb]; split_tests; cbn in *;
    match goal with H : (3 <=? _) = _ |- _ => rewrite H end;
    by rewrite ?orb_true_r, ?orb_false_r.
Qed.

(** A bomb flag that is set stays set through every call, valid or invalid,
    whatever the moves and the winner passed in. *)
Theorem update_game_state_flags_never_cleared um bm w inv g :
  (user_bomb_used g = true ->
   user_bomb_used (state_after (update_game_state um bm w inv g)) = true)
  /\ (bot_bomb_used g = true ->
      bot_bomb_used (state_after (update_game_state um bm w inv g)) = true).
Proof.
  unfold update_game_state. run_tool.
  destruct inv; cbn [negb]; split_tests; cbn; done.
Qed.

Lemma update_game_state_flags_never_cleared_witness :
  user_bomb_used
    (state_after (update_game_state (Some "rock") (Some "paper") (Some "bot")
                    false finished_match)) = true.
Proof.
  apply (update_game_state_flags_never_cleared (Some "rock") (Some "paper")
           (Some "bot") false finished_match).
  reflexivity.
Defined.

(** No call lowers a score, and one call adds at most one point in total:
    a round never scores for both sides. *)
Theorem update_game_state_scores_step um bm w inv g :
  user_score g <= user_score (state_after (update_game_state um bm w inv g))
  /\ bot_score g <= bot_score (state_after (update_game_state um bm w inv g))
  /\ user_score (state_after (update_game_state um bm w inv g))
     + bot_score (state_after (update_game_state um bm w inv g))
     <= user_score g + bot_score g + 1.
Proof.
  unfold update_game_state. run_tool.
  destruct inv; cbn [negb]; split_tests; cbn; lia.
Qed.

(** With [invalid_input] unset, a winner that is neither "user" nor "bot"
    (a missing one included) is recorded as a draw and scores for nobody. *)
Theorem update_game_state_unknown_winner um bm (w : option string) g :
  w <> Some "user" -> w <> Some "bot" ->
  last_round_result (state_after (update_game_state um bm w false g)) = Some "draw"
  /\ user_score (state_after (update_game_state um bm w false g)) = user_score g
  /\ bot_score (state_after (update_game_state um bm w false g)) = bot_score g.
Proof.
  intros Hu Hb.
  assert (is_str w "user" = false) as Eu.
  { destruct w as [x|]; [|done]. cbn. apply String.eqb_neq. congruence. }
  assert (is_str w "bot" = false) as Eb.
  { destruct w as [x|]; [|done]. cbn. apply String.eqb_neq. congruence. }
  unfold update_game_state. run_tool. cbn [negb]. rewrite Eu, Eb.
  cbn beta iota. split_tests; cbn; done.
Qed.

Lemma update_game_state_unknown_winner_witness :
  last_round_result
    (state_after (update_game_state (Some "rock") (Some "paper") None false
                    GameState_default)) = Some "draw"
  /\ user_score
       (state_after (update_game_state (Some "rock") (Some "paper") None false
                       GameState_default)) = 0
  /\ bot_score
       (state_after (update_game_state (Some "rock") (Some "paper") None false
                       GameState_default)) = 0.
Proof.
  apply (update_game_state_unknown_winner (Some "rock") (Some "paper") None
           GameState_default); discriminate.
Defined.

(** ** More on round resolution *)

(** A round is drawn exactly when both sides played the same string. *)
Theorem resolve_round_draw_iff_equal (u b : string) :
  winner (resolve_round u b) = "draw" <-> u = b.
Proof.
  rewrite winner_cases. split.
  - destruct (String.eqb_spec u "bomb") as [->|Hu],
      (String.eqb_spec b "bomb") as [->|Hb]; cbn [andb]; try done.
    destruct (String.eqb_spec u b); [done|].
    by destruct (_ || _).
  - intros <-. rewrite String.eqb_refl, andb_diag.
    by destruct (String.eqb u "bomb").
Qed.

(** On validated labels the rules favour neither seat: exchanging the two
    moves exchanges user and bot in the outcome and keeps a draw a draw. *)
Theorem resolve_round_swap (u b : string) :
  u ∈ valid_moves -> b ∈ valid_moves ->
  winner (resolve_round b u) = swap_winner (winner (resolve_round u b)).
Proof.
  unfold valid_moves. intros Hu Hb.
  repeat (apply elem_of_cons in Hu as [-> | Hu]);
    [..|by apply elem_of_nil in Hu];
    (repeat (apply elem_of_cons in Hb as [-> | Hb]);
     [..|by apply elem_of_nil in Hb]); reflexivity.
Qed.

Lemma resolve_round_swap_witness :
  winner (resolve_round "scissors" "rock")
  = swap_winner (winner (resolve_round "rock" "scissors")).
Proof.
  apply (resolve_round_swap "rock" "scissors"); unfold valid_moves;
    repeat constructor.
Defined.

(** ** More on validation and on the bot's move *)

Lemma validate_move_normalized (a b : string) (is_user : bool) (g : GameState) :
  strip (lower a) = strip (lower b) ->
  validate_move a is_user g = validate_move b is_user g.
Proof. unfold validate_move. by intros ->. Qed.

Lemma valid_moves_normal (label : string) :
  label ∈ valid_moves -> strip (lower label) = label.
Proof.
  unfold valid_moves. intros Hin.
  repeat (apply elem_of_cons in Hin as [-> | Hin]);
    [..|by apply elem_of_nil in Hin]; reflexivity.
Qed.

(** What [validate_move] returns, branch by branch. *)
Lemma validate_move_cases (m : string) (is_user : bool) (g : GameState) :
  ((strip (lower m) ∉ valid_moves)
   /\ validate_move m is_user g
      = Returned (mkValidation false
                    ("Invalid move '" +:+ strip (lower m)
                       +:+ "'. Valid moves: rock, paper, scissors, bomb") None) g)
  \/ (strip (lower m) = "bomb" /\ is_user = true /\ user_bomb_used g = true
      /\ validate_move m is_user g
         = Returned (mkValidation false "You already used your bomb this game" None) g)
  \/ (strip (lower m) = "bomb" /\ is_user = false /\ bot_bomb_used g = true
      /\ validate_move m is_user g
         = Returned (mkValidation false "Bot already used bomb" None) g)
  \/ (strip (lower m) ∈ valid_moves
      /\ (strip (lower m) = "bomb" ->
          (if is_user then user_bomb_used g else bot_bomb_used g) = false)
      /\ validate_move m is_user g
         = Returned (mkValidation true "Move is valid" (Some (strip (lower m)))) g).
Proof.
  unfold validate_move. run_tool.
  destruct (str_in _ valid_moves) eqn:Hin; cbn [negb].
  - apply str_in_elem_of in Hin.
    destruct (String.eqb_spec (strip (lower m)) "bomb") as [Hb|Hb].
    + destruct is_user; cbn [negb andb].
      * destruct (user_bomb_used g) eqn:E; [right; left; done|].
        do 3 right. done.
      * destruct (bot_bomb_used g) eqn:E; [right; right; left; done|].
        do 3 right. done.
    + do 3 right. done.
  - left. split; [|done]. rewrite <- str_in_elem_of. congruence.
Qed.

(** A rejection says why: an unrecognised text is quoted back in its
    normalized form, and a second bomb is answered with a message naming the
    side whose bomb is spent. *)
Theorem validate_move_reason (m : string) (is_user : bool) (g g' : GameState)
    (v : validation) :
  validate_move m is_user g = Returned v g' -> valid v = false ->
  ((strip (lower m) ∉ valid_moves)
   /\ reason v = "Invalid move '" +:+ strip (lower m)
                   +:+ "'. Valid moves: rock, paper, scissors, bomb")
  \/ (strip (lower m) = "bomb" /\ is_user = true /\ user_bomb_used g = true
      /\ reason v = "You already used your bomb this game")
  \/ (strip (lower m) = "bomb" /\ is_user = false /\ bot_bomb_used g = true
      /\ reason v = "Bot already used bomb").
Proof.
  intros Hret Hrej.
  destruct (validate_move_cases m is_user g)
    as [(H1 & E)|[(H1 & H2 & H3 & E)|[(H1 & H2 & H3 & E)|(H1 & H2 & E)]]];
    rewrite E in Hret; injection Hret as <- <-.
  - by left.
  - right. by left.
  - right. by right.
  - discriminate.
Qed.

Lemma validate_move_reason_witness :
  (strip (lower " Lizard ") ∉ valid_moves)
  /\ reason (mkValidation false
               "Invalid move 'lizard'. Valid moves: rock, paper, scissors, bomb"
               None)
     = "Invalid move '" +:+ strip (lower " Lizard ")
         +:+ "'. Valid moves: rock, paper, scissors, bomb".
Proof.
  destruct (validate_move_reason " Lizard " true GameState_default GameState_default
              (mkValidation false
                 "Invalid move 'lizard'. Valid moves: rock, paper, scissors, bomb"
                 None) eq_refl eq_refl)
    as [H|[(H & _)|(H & _)]]; [exact H|vm_compute in H; discriminate H..].
Defined.

(** The dictionary of a rejection has no "move" entry: reading it raises
    [KeyError]. *)
Theorem rejected_validation_has_no_move (m : string) (is_user : bool)
    (g g' g0 : GameState) (v : validation) :
  validate_move m is_user g = Returned v g' -> valid v = false ->
  validated_move v g0 = Raised (KeyError "move") g0.
Proof.
  intros Hret Hrej.
  destruct (validate_move_cases m is_user g)
    as [(H1 & E)|[(H1 & H2 & H3 & E)|[(H1 & H2 & H3 & E)|(H1 & H2 & E)]]];
    rewrite E in Hret; injection Hret as <- <-; done.
Qed.

Lemma rejected_validation_has_no_move_witness :
  validated_move (mkValidation false "You already used your bomb this game" None)
    GameState_default
  = Raised (KeyError "move") GameState_default.
Proof.
  apply (rejected_validation_has_no_move "BOMB" true finished_match
           finished_match GameState_default); reflexivity.
Defined.

(** An accepted move is carried as one of the four labels, and that label
    is its own normal form: validating it again for the same side gives the
    same answer. *)
Theorem validate_move_accepts_own_label (m : string) (is_user : bool)
    (g g' : GameState) (v : validation) :
  validate_move m is_user g = Returned v g' -> valid v = true ->
  exists label,
    move v = Some label
    /\ label ∈ valid_moves
    /\ validate_move label is_user g = Returned v g.
Proof.
  intros Hret Hacc.
  destruct (validate_move_cases m is_user g)
    as [(H1 & E)|[(H1 & H2 & H3 & E)|[(H1 & H2 & H3 & E)|(H1 & H2 & E)]]];
    rewrite E in Hret; injection Hret as <- <-; try discriminate.
  exists (strip (lower m)). split; [done|]. split; [done|].
  rewrite <- E. apply validate_move_normalized.
  by apply valid_moves_normal.
Qed.

Lemma validate_move_accepts_own_label_witness :
  exists label,
    Some "paper" = Some label
    /\ label ∈ valid_moves
    /\ validate_move label true GameState_default
       = Returned (mkValidation true "Move is valid" (Some "paper"))
           GameState_default.
Proof.
  apply (validate_move_accepts_own_label "  PaPeR " true GameState_default
           GameState_default
           (mkValidation true "Move is valid" (Some "paper")));
    reflexivity.
Defined.

(** The answer of [get_bot_move] in terms of what was drawn. *)
Lemma get_bot_move_cases (r : random_draws) (g : GameState) :
  get_bot_move r g
  = Returned
      (if negb (bot_bomb_used g) && (1 <=? current_round g) && below_0_3 r
       then "bomb" else random_choice r ["rock"; "paper"; "scissors"])
      g.
Proof. unfold get_bot_move. run_tool. by split_tests. Qed.

Lemma random_choice_valid (r : random_draws) :
  random_choice r ["rock"; "paper"; "scissors"] ∈ valid_moves.
Proof.
  destruct (random_choice_standard r) as [Hin _].
  unfold valid_moves. set_unfold. tauto.
Qed.

(** [get_bot_move] always answers with one of the four labels and leaves the
    state alone; the answer is bomb exactly when the bot's bomb is unspent,
    at least one round has been played, and the drawn float is below 0.3. *)
Theorem get_bot_move_choice (r : random_draws) (g : GameState) :
  exists m,
    get_bot_move r g = Returned m g
    /\ m ∈ valid_moves
    /\ (m = "bomb" <->
        bot_bomb_used g = false /\ 1 <= current_round g
        /\ 2 * unit_draw r < 5404319552844595).
Proof.
  eexists. split; [apply get_bot_move_cases|].
  destruct (random_choice_standard r) as [_ Hne].
  pose proof (random_choice_valid r) as Hin.
  unfold below_0_3.
  destruct (bot_bomb_used g), (Z.leb_spec 1 (current_round g)),
    (Z.ltb_spec (2 * unit_draw r) 5404319552844595); cbn [negb andb];
    (split; [first [done | unfold valid_moves; repeat constructor]|]);
    split; try done; intros (? & ? & ?); first [done | lia].
Qed.

(** The bot never produces a move that validation would refuse it: whatever
    is drawn, its answer passes [validate_move] for the bot's side in the
    same state, unchanged. *)
Theorem bot_move_is_valid (r : random_draws) (g : GameState) :
  exists m,
    get_bot_move r g = Returned m g
    /\ validate_move m false g
       = Returned (mkValidation true "Move is valid" (Some m)) g.
Proof.
  eexists. split; [apply get_bot_move_cases|].
  destruct (negb (bot_bomb_used g) && (1 <=? current_round g) && below_0_3 r)
    eqn:Hbomb.
  - apply andb_prop in Hbomb as [[Hfree%negb_true_iff _]%andb_prop _].
    destruct (validate_move_cases "bomb" false g)
      as [(H1 & _)|[(_ & H2 & _)|[(_ & _ & H3 & _)|(_ & _ & E)]]];
      [|discriminate H2|congruence|exact E].
    exfalso. apply H1. vm_compute. repeat constructor.
  - destruct (random_choice_standard r) as [_ Hne].
    pose proof (random_choice_valid r) as Hin.
    destruct (validate_move_cases (random_choice r ["rock"; "paper"; "scissors"])
                false g)
      as [(H1 & E)|[(H1 & H2 & H3 & E)|[(H1 & H2 & H3 & E)|(H1 & H2 & E)]]];
      rewrite (valid_moves_normal _ Hin) in *; done.
Qed.

(** ** The referee's texts *)

(** Read from the record of a state, the closing block never fails, leaves
    the state alone, shows the two scores of that state, and announces the
    side with the strictly greater score, or a draw when they are equal. *)
Theorem final_result_follows_scores (g g0 : GameState) :
  exists f,
    _get_final_result (to_dict g) g0 = Returned f g0
    /\ final_user_score f = PInt (user_score g)
    /\ final_bot_score f = PInt (bot_score g)
    /\ (final_banner f = YouWin <-> bot_score g < user_score g)
    /\ (final_banner f = BotWins <-> user_score g < bot_score g)
    /\ (final_banner f = ItsADraw <-> user_score g = bot_score g).
Proof.
  unfold _get_final_result. enter_bind.
  rewrite (getitem_present _ _ _ g0 (to_dict_user_score g)).
  enter_bind. rewrite (getitem_present _ _ _ g0 (to_dict_bot_score g)).
  unfold py_gt. cbn [as_number]. run_tool.
  destruct (Z.ltb_spec (bot_score g) (user_score g));
    [|destruct (Z.ltb_spec (user_score g) (bot_score g))];
    eexists; (split; [reflexivity|]); cbn [final_banner final_user_score final_bot_score];
    repeat split; try done; try lia.
Qed.

(** On a dictionary that lacks a score entry the closing block raises
    [KeyError] for the first entry it cannot find: "user_score" is read
    first, so its absence is the one reported even when "bot_score" is
    absent too, and "bot_score" is reported only when "user_score" is
    there. *)
Theorem final_result_missing_score (state : gmap string pyval) (g0 : GameState) :
  state !! "user_score" = None \/ state !! "bot_score" = None ->
  _get_final_result state g0
  = Raised (KeyError (match state !! "user_score" with
                      | None => "user_score"
                      | Some _ => "bot_score"
                      end)) g0.
Proof.
  intros Hmiss. unfold _get_final_result, getitem. run_tool.
  destruct (state !! "user_score") as [us|] eqn:Eus; [|done].
  destruct Hmiss as [?|Ebs]; [done|]. by rewrite Ebs.
Qed.

Lemma final_result_missing_score_witness :
  _get_final_result ∅ GameState_default
  = Raised (KeyError "user_score") GameState_default
  /\ _get_final_result (<["user_score" := PInt 1]> ∅) GameState_default
     = Raised (KeyError "bot_score") GameState_default.
Proof.
  split.
  - refine (eq_trans (final_result_missing_score ∅ GameState_default _) _);
      [left; reflexivity | reflexivity].
  - refine (eq_trans (final_result_missing_score (<["user_score" := PInt 1]> ∅)
                        GameState_default _) _);
      [right; reflexivity | reflexivity].
Defined.

(** A score entry holding [None] cannot be compared: the closing block
    raises [TypeError]. *)
Theorem final_result_none_score (state : gmap string pyval) (bs : pyval)
    (g0 : GameState) :
  state !! "user_score" = Some PNone -> state !! "bot_score" = Some bs ->
  _get_final_result state g0 = Raised TypeError g0.
Proof.
  intros Eus Ebs. unfold _get_final_result, getitem. run_tool.
  rewrite Eus, Ebs. by destruct bs.
Qed.

Lemma final_result_none_score_witness :
  _get_final_result (<["user_score" := PNone]> (to_dict GameState_default))
    GameState_default
  = Raised TypeError GameState_default.
Proof.
  apply (final_result_none_score _ (PInt 0)); reflexivity.
Defined.

Ltac explain_round :=
  first
    [ left; by repeat split
    | right; left; by repeat split
    | right; right; left; by repeat split
    | right; right; right; left;
      split; [done|]; split; [constructor|];
      first [left; by split | right; left; by split | right; right; by split]
    | right; right; right; right;
      split; [done|]; split; [constructor|];
      first [left; by split | right; left; by split | right; right; by split] ].

(** For validated labels the line explaining a round fits the moves played:
    a draw is announced only for equal moves, a bomb win names the bomb of
    the side that played it, and otherwise the line names the winner's move
    and that move does beat the loser's. The generic fallback never shows. *)
Theorem winner_text_fits_moves (u b : string) :
  u ∈ valid_moves -> b ∈ valid_moves ->
  (winner (resolve_round u b) = "draw" /\ u = b
   /\ _get_winner_text (winner (resolve_round u b)) u b
      = "It's a draw! Both played the same move.")
  \/ (winner (resolve_round u b) = "user" /\ u = "bomb"
      /\ _get_winner_text (winner (resolve_round u b)) u b
         = "You win! Bomb destroys everything!")
  \/ (winner (resolve_round u b) = "bot" /\ b = "bomb"
      /\ _get_winner_text (winner (resolve_round u b)) u b
         = "Bot wins! Bomb destroys everything!")
  \/ (winner (resolve_round u b) = "user" /\ beats u b
      /\ ((u = "rock"
           /\ _get_winner_text (winner (resolve_round u b)) u b
              = "You win! Rock crushes scissors.")
          \/ (u = "paper"
              /\ _get_winner_text (winner (resolve_round u b)) u b
                 = "You win! Paper covers rock.")
          \/ (u = "scissors"
              /\ _get_winner_text (winner (resolve_round u b)) u b
                 = "You win! Scissors cuts paper.")))
  \/ (winner (resolve_round u b) = "bot" /\ beats b u
      /\ ((b = "rock"
           /\ _get_winner_text (winner (resolve_round u b)) u b
              = "Bot wins. Rock crushes scissors.")
          \/ (b = "paper"
              /\ _get_winner_text (winner (resolve_round u b)) u b
                 = "Bot wins. Paper covers rock.")
          \/ (b = "scissors"
              /\ _get_winner_text (winner (resolve_round u b)) u b
                 = "Bot wins. Scissors cuts paper."))).
Proof.
  unfold valid_moves. intros Hu Hb.
  repeat (apply elem_of_cons in Hu as [-> | Hu]);
    [..|by apply elem_of_nil in Hu];
    (repeat (apply elem_of_cons in Hb as [-> | Hb]);
     [..|by apply elem_of_nil in Hb]); explain_round.
Qed.

Lemma winner_text_fits_moves_witness :
  _get_winner_text (winner (resolve_round "scissors" "rock")) "scissors" "rock"
  = "Bot wins. Rock crushes scissors.".
Proof.
  destruct (winner_text_fits_moves "scissors" "rock")
    as [(H & _)|[(H & _)|[(_ & H & _)|[(H & _)|(_ & _ & [(_ & H)|[(H & _)|(H & _)]])]]]];
    [unfold valid_moves; repeat constructor..| | | | | | |];
    first [exact H | discriminate H].
Defined.

(** ** More on one round through the referee *)

(** The state [update_game_state] leaves behind, field by field. *)
Lemma update_game_state_closed um bm w inv g :
  state_after (update_game_state um bm w inv g)
  = mkGameState (current_round g + 1)
      (if negb inv && is_str w "user" then user_score g + 1 else user_score g)
      (if negb inv && negb (is_str w "user") && is_str w "bot"
       then bot_score g + 1 else bot_score g)
      (user_bomb_used g || (negb inv && is_str um "bomb"))
      (bot_bomb_used g || (negb inv && is_str bm "bomb"))
      (game_over g || (3 <=? current_round g + 1))
      um bm
      (Some (if inv then "invalid"
             else if is_str w "user" then "user"
             else if is_str w "bot" then "bot" else "draw")).
Proof.
  destruct g as [cr us bs ub bb go lu lb lr].
  unfold update_game_state. run_tool.
  destruct inv, (is_str w "user"), (is_str w "bot"), (is_str um "bomb"),
    (is_str bm "bomb"), ub, bb, go; cbn;
    destruct (3 <=? cr + 1); reflexivity.
Qed.

Lemma final_result_returns (g g0 : GameState) :
  exists f, _get_final_result (to_dict g) g0 = Returned f g0.
Proof.
  unfold _get_final_result. enter_bind.
  rewrite (getitem_present _ _ _ g0 (to_dict_user_score g)).
  enter_bind. rewrite (getitem_present _ _ _ g0 (to_dict_bot_score g)).
  unfold py_gt. cbn [as_number]. run_tool. split_tests; eauto.
Qed.

Lemma closing_block_of_state (g g0 : GameState) :
  exists final,
    closing_block (to_dict g) g0 = Returned final g0
    /\ (final = None <-> game_over g = false)
    /\ (forall f, final = Some f ->
          _get_final_result (to_dict g) g0 = Returned f g0).
Proof.
  unfold closing_block. enter_bind.
  rewrite (getitem_present _ _ _ g0 (to_dict_game_over g)).
  cbn [truthy]. destruct (game_over g).
  - unfold fmap, tool_fmap.
    destruct (final_result_returns g g0) as (f & ->).
    eexists. split; [reflexivity|]. split; [done|]. by intros f' [= <-].
  - eexists. split; [reflexivity|]. split; [done|]. done.
Qed.

(** The rejecting branch of [process_user_input], statement by statement. *)
Lemma process_user_input_invalid (r : random_draws) (user_input : string)
    (g : GameState) (v : validation) :
  game_over g = false ->
  validate_move user_input true g = Returned v g ->
  valid v = false ->
  exists final,
    closing_block
      (to_dict (state_after (update_game_state (Some user_input) None
                               (Some "invalid") true g)))
      (state_after (update_game_state (Some user_input) None
                      (Some "invalid") true g))
    = Returned final
        (state_after (update_game_state (Some user_input) None
                        (Some "invalid") true g))
    /\ process_user_input r user_input g
       = Returned
           (Round (mkReport
              (PInt (current_round (state_after (update_game_state
                 (Some user_input) None (Some "invalid") true g))))
              user_input None "Invalid move! This round is wasted."
              (Some (reason v))
              (PInt (user_score (state_after (update_game_state
                 (Some user_input) None (Some "invalid") true g))))
              (PInt (bot_score (state_after (update_game_state
                 (Some user_input) None (Some "invalid") true g))))
              final))
           (state_after (update_game_state (Some user_input) None
                           (Some "invalid") true g)).
Proof.
  intros Hopen Hv Hrej.
  set (g1 := state_after (update_game_state (Some user_input) None
                            (Some "invalid") true g)).
  destruct (closing_block_of_state g1 g1) as (final & Hfinal & _).
  exists final. split; [done|].
  unfold process_user_input.
  enter_bind. rewrite get_game_state_returns.
  enter_bind. rewrite (getitem_present _ _ _ g (to_dict_game_over g)).
  cbn [truthy]. rewrite Hopen.
  enter_bind. rewrite Hv, Hrej. cbn [negb].
  enter_bind.
  rewrite (update_game_state_returns (Some user_input) None (Some "invalid") true g).
  fold g1.
  enter_bind. rewrite get_game_state_returns.
  enter_bind. rewrite (getitem_present _ _ _ g1 (to_dict_current_round g1)).
  enter_bind. rewrite (getitem_present _ _ _ g1 (to_dict_user_score g1)).
  enter_bind. rewrite (getitem_present _ _ _ g1 (to_dict_bot_score g1)).
  enter_bind. rewrite Hfinal. reflexivity.
Qed.

(** The accepting branch of [process_user_input], statement by statement. *)
Lemma process_user_input_valid (r : random_draws) (user_input label bm : string)
    (g : GameState) :
  game_over g = false ->
  validate_move user_input true g
  = Returned (mkValidation true "Move is valid" (Some label)) g ->
  get_bot_move r g = Returned bm g ->
  exists final,
    closing_block
      (to_dict (state_after (update_game_state (Some label) (Some bm)
                               (Some (winner (resolve_round label bm))) false g)))
      (state_after (update_game_state (Some label) (Some bm)
                      (Some (winner (resolve_round label bm))) false g))
    = Returned final
        (state_after (update_game_state (Some label) (Some bm)
                        (Some (winner (resolve_round label bm))) false g))
    /\ process_user_input r user_input g
       = Returned
           (Round (mkReport
              (PInt (current_round (state_after (update_game_state
                 (Some label) (Some bm)
                 (Some (winner (resolve_round label bm))) false g))))
              label (Some bm)
              (_get_winner_text (winner (resolve_round label bm)) label bm)
              None
              (PInt (user_score (state_after (update_game_state
                 (Some label) (Some bm)
                 (Some (winner (resolve_round label bm))) false g))))
              (PInt (bot_score (state_after (update_game_state
                 (Some label) (Some bm)
                 (Some (winner (resolve_round label bm))) false g))))
              final))
           (state_after (update_game_state (Some label) (Some bm)
                           (Some (winner (resolve_round label bm))) false g)).
Proof.
  intros Hopen Hv Hbot.
  set (g1 := state_after (update_game_state (Some label) (Some bm)
                            (Some (winner (resolve_round label bm))) false g)).
  destruct (closing_block_of_state g1 g1) as (final & Hfinal & _).
  exists final. split; [done|].
  unfold process_user_input.
  enter_bind. rewrite get_game_state_returns.
  enter_bind. rewrite (getitem_present _ _ _ g (to_dict_game_over g)).
  cbn [truthy]. rewrite Hopen.
  enter_bind. rewrite Hv. cbn [valid negb].
  enter_bind. rewrite Hbot.
  unfold validated_move. cbn [move].
  enter_bind. unfold mret at 1, tool_ret at 1. cbn zeta.
  enter_bind.
  rewrite (update_game_state_returns (Some label) (Some bm)
             (Some (winner (resolve_round label bm))) false g).
  fold g1.
  enter_bind. rewrite get_game_state_returns.
  enter_bind. rewrite (getitem_present _ _ _ g1 (to_dict_current_round g1)).
  enter_bind. rewrite (getitem_present _ _ _ g1 (to_dict_user_score g1)).
  enter_bind. rewrite (getitem_present _ _ _ g1 (to_dict_bot_score g1)).
  enter_bind. rewrite Hfinal. reflexivity.
Qed.

(** [process_user_input] never raises: whatever is typed, whatever is drawn
    and whatever the state, it returns a response. None of its dictionary
    lookups can miss. *)
Theorem process_user_input_never_raises (r : random_draws)
    (user_input : string) (g : GameState) :
  exists resp g', process_user_input r user_input g = Returned resp g'.
Proof.
  destruct (game_over g) eqn:Hover.
  - exists (Message already_over), g.
    unfold process_user_input.
    enter_bind. rewrite get_game_state_returns.
    enter_bind. rewrite (getitem_present _ _ _ g (to_dict_game_over g)).
    cbn [truthy]. by rewrite Hover.
  - destruct (process_user_input_open r user_input g Hover)
      as (um & bm & w & inv & report & ->).
    eauto.
Qed.

(** With the match open, a text that is not one of the four labels costs
    the round: the counter moves by one, scores and bomb flags stay, the
    text is stored as typed (not normalized) with no bot move beside it, and
    the response quotes the normalized text in its reason. *)
Theorem referee_wastes_round_on_bad_input (r : random_draws)
    (user_input : string) (g : GameState) :
  game_over g = false ->
  strip (lower user_input) ∉ valid_moves ->
  exists report g',
    process_user_input r user_input g = Returned (Round report) g'
    /\ current_round g' = current_round g + 1
    /\ user_score g' = user_score g /\ bot_score g' = bot_score g
    /\ user_bomb_used g' = user_bomb_used g
    /\ bot_bomb_used g' = bot_bomb_used g
    /\ last_user_move g' = Some user_input
    /\ last_bot_move g' = None
    /\ last_round_result g' = Some "invalid"
    /\ shown_bot_move report = None
    /\ shown_reason report
       = Some ("Invalid move '" +:+ strip (lower user_input)
                 +:+ "'. Valid moves: rock, paper, scissors, bomb").
Proof.
  intros Hopen Hbad.
  destruct (validate_move_cases user_input true g)
    as [(_ & E)|[(H1 & _)|[(H1 & _)|(H1 & _)]]].
  2,3: exfalso; apply Hbad; rewrite H1; unfold valid_moves; repeat constructor.
  2: done.
  destruct (process_user_input_invalid r user_input g _ Hopen E eq_refl)
    as (final & _ & ->).
  do 2 eexists. split; [reflexivity|].
  rewrite update_game_state_closed. cbn.
  rewrite !orb_false_r. by repeat split.
Qed.

Lemma referee_wastes_round_on_bad_input_witness :
  exists report g',
    process_user_input (mkDraws 0 0) "Lizard!" GameState_default
    = Returned (Round report) g'
    /\ current_round g' = 1
    /\ last_user_move g' = Some "Lizard!"
    /\ last_round_result g' = Some "invalid"
    /\ shown_reason report
       = Some "Invalid move 'lizard!'. Valid moves: rock, paper, scissors, bomb".
Proof.
  destruct (referee_wastes_round_on_bad_input (mkDraws 0 0) "Lizard!"
              GameState_default eq_refl)
    as (report & g' & H1 & H2 & _ & _ & _ & _ & H7 & _ & H9 & _ & H11).
  { vm_compute. intros Hin.
    repeat (apply elem_of_cons in Hin as [Heq | Hin]; [discriminate Heq|]).
    by apply elem_of_nil in Hin. }
  exists report, g'. repeat split; assumption.
Defined.

(** With the match open and the user's bomb already spent, typing bomb again
    (in any case, with any padding) is refused with the user's-bomb message
    and costs the round like any invalid input: no bot move is drawn, nobody
    scores, and the flag stays set. *)
Theorem referee_refuses_second_bomb (r : random_draws) (user_input : string)
    (g : GameState) :
  game_over g = false ->
  user_bomb_used g = true ->
  strip (lower user_input) = "bomb" ->
  exists report g',
    process_user_input r user_input g = Returned (Round report) g'
    /\ current_round g' = current_round g + 1
    /\ user_score g' = user_score g /\ bot_score g' = bot_score g
    /\ user_bomb_used g' = true
    /\ bot_bomb_used g' = bot_bomb_used g
    /\ last_bot_move g' = None
    /\ last_round_result g' = Some "invalid"
    /\ shown_reason report = Some "You already used your bomb this game".
Proof.
  intros Hopen Hspent Hbomb.
  destruct (validate_move_cases user_input true g)
    as [(H1 & _)|[(_ & _ & _ & E)|[(_ & H2 & _)|(_ & H2 & _)]]].
  - exfalso. apply H1. rewrite Hbomb. unfold valid_moves. repeat constructor.
  - destruct (process_user_input_invalid r user_input g _ Hopen E eq_refl)
      as (final & _ & ->).
    do 2 eexists. split; [reflexivity|].
    rewrite update_game_state_closed. cbn.
    rewrite !orb_false_r. by repeat split.
  - done.
  - specialize (H2 Hbomb). cbn in H2. congruence.
Qed.

Lemma referee_refuses_second_bomb_witness :
  exists report g',
    process_user_input (mkDraws 0 0) " Bomb"
      (mkGameState 1 1 0 true false false (Some "bomb") (Some "rock") (Some "user"))
    = Returned (Round report) g'
    /\ current_round g' = 2
    /\ user_score g' = 1
    /\ last_round_result g' = Some "invalid"
    /\ shown_reason report = Some "You already used your bomb this game".
Proof.
  destruct (referee_refuses_second_bomb (mkDraws 0 0) " Bomb"
              (mkGameState 1 1 0 true false false (Some "bomb") (Some "rock")
                 (Some "user")) eq_refl eq_refl eq_refl)
    as (report & g' & H1 & H2 & H3 & _ & _ & _ & _ & H8 & H9).
  exists report, g'. repeat split; assumption.
Defined.

Lemma winner_three (u b : string) :
  winner (resolve_round u b) = "user"
  \/ winner (resolve_round u b) = "bot"
  \/ winner (resolve_round u b) = "draw".
Proof. rewrite winner_cases. split_tests; auto. Qed.

Lemma recorded_winner (u b : string) :
  (if is_str (Some (winner (resolve_round u b))) "user" then "user"
   else if is_str (Some (winner (resolve_round u b))) "bot" then "bot"
   else "draw") = winner (resolve_round u b).
Proof. by destruct (winner_three u b) as [-> | [-> | ->]]. Qed.

(** With the match open, an accepted move is played against the bot's move:
    the state advances by [update_game_state] applied to the normalized
    label, the bot's move and the winner that [resolve_round] gives for the
    two, and the response shows that round, that explanation and the scores
    of the new state. *)
Theorem referee_plays_valid_round (r : random_draws) (user_input : string)
    (g : GameState) :
  game_over g = false ->
  strip (lower user_input) ∈ valid_moves ->
  (strip (lower user_input) = "bomb" -> user_bomb_used g = false) ->
  exists bm report g',
    get_bot_move r g = Returned bm g
    /\ process_user_input r user_input g = Returned (Round report) g'
    /\ g' = state_after
              (update_game_state (Some (strip (lower user_input))) (Some bm)
                 (Some (winner (resolve_round (strip (lower user_input)) bm)))
                 false g)
    /\ current_round g' = current_round g + 1
    /\ last_user_move g' = Some (strip (lower user_input))
    /\ last_bot_move g' = Some bm
    /\ last_round_result g'
       = Some (winner (resolve_round (strip (lower user_input)) bm))
    /\ shown_user_move report = strip (lower user_input)
    /\ shown_bot_move report = Some bm
    /\ shown_result report
       = _get_winner_text
           (winner (resolve_round (strip (lower user_input)) bm))
           (strip (lower user_input)) bm
    /\ shown_round report = PInt (current_round g')
    /\ shown_user_score report = PInt (user_score g')
    /\ shown_bot_score report = PInt (bot_score g').
Proof.
  intros Hopen Hin Hfree.
  destruct (validate_move_cases user_input true g)
    as [(H1 & _)|[(H1 & _ & H3 & _)|[(_ & H2 & _)|(_ & _ & E)]]].
  - done.
  - specialize (Hfree H1). congruence.
  - done.
  - destruct (process_user_input_valid r user_input _ _ g Hopen E
                (get_bot_move_cases r g)) as (final & _ & ->).
    eexists. eexists. eexists. split; [apply get_bot_move_cases|].
    split; [reflexivity|]. split; [reflexivity|].
    rewrite update_game_state_closed. cbn [negb andb].
    rewrite recorded_winner. by repeat split.
Qed.

Lemma referee_plays_valid_round_witness :
  exists bm report g',
    get_bot_move (mkDraws 0 2) GameState_default = Returned bm GameState_default
    /\ process_user_input (mkDraws 0 2) " ROCK " GameState_default
       = Returned (Round report) g'
    /\ last_user_move g' = Some "rock"
    /\ last_bot_move g' = Some bm
    /\ shown_user_score report = PInt (user_score g').
Proof.
  destruct (referee_plays_valid_round (mkDraws 0 2) " ROCK " GameState_default
              eq_refl)
    as (bm & report & g' & H1 & H2 & _ & _ & H5 & H6 & _ & _ & _ & _ & _ & H12 & _).
  { vm_compute. repeat constructor. }
  { vm_compute. discriminate. }
  exists bm, report, g'. repeat split; assumption.
Defined.

(** What an open match answers, whichever branch is taken. *)
Lemma process_user_input_round (r : random_draws) (user_input : string)
    (g : GameState) :
  game_over g = false ->
  exists um bm w inv report,
    process_user_input r user_input g
    = Returned (Round report) (state_after (update_game_state um bm w inv g))
    /\ closing_block
         (to_dict (state_after (update_game_state um bm w inv g)))
         (state_after (update_game_state um bm w inv g))
       = Returned (shown_final report)
           (state_after (update_game_state um bm w inv g))
    /\ (inv = true -> um = Some user_input /\ bm = None
        /\ ~ (strip (lower user_input) ∈ valid_moves
              /\ (strip (lower user_input) = "bomb" -> user_bomb_used g = false)))
    /\ (inv = false ->
        um = Some (strip (lower user_input))
        /\ (strip (lower user_input) = "bomb" -> user_bomb_used g = false)
        /\ exists m, bm = Some m /\ get_bot_move r g = Returned m g
             /\ w = Some (winner (resolve_round (strip (lower user_input)) m))).
Proof.
  intros Hopen.
  destruct (validate_move_cases user_input true g)
    as [(H1 & E)|[(H1 & _ & H3 & E)|[(_ & H2 & _)|(H1 & H2 & E)]]].
  - destruct (process_user_input_invalid r user_input g _ Hopen E eq_refl)
      as (final & Hfinal & ->).
    exists (Some user_input), None, (Some "invalid"), true. eexists.
    split; [reflexivity|]. split; [exact Hfinal|]. split; [|done].
    intros _. repeat split; try done. by intros [? _].
  - destruct (process_user_input_invalid r user_input g _ Hopen E eq_refl)
      as (final & Hfinal & ->).
    exists (Some user_input), None, (Some "invalid"), true. eexists.
    split; [reflexivity|]. split; [exact Hfinal|]. split; [|done].
    intros _. repeat split; try done. intros [_ Hfree].
    specialize (Hfree H1). congruence.
  - done.
  - destruct (process_user_input_valid r user_input _ _ g Hopen E
                (get_bot_move_cases r g)) as (final & Hfinal & ->).
    do 3 eexists. exists false. eexists.
    split; [reflexivity|]. split; [exact Hfinal|]. split; [done|].
    intros _. split; [done|]. split; [done|].
    eexists. split; [reflexivity|]. split; [apply get_bot_move_cases|reflexivity].
Qed.

(** With the match open, the response carries the closing block exactly
    when this round brings the counter to 3, which is also when [game_over]
    is raised; the block is then the one [_get_final_result] gives for the
    state just written. *)
Theorem referee_closes_match_on_third_round (r : random_draws)
    (user_input : string) (g : GameState) :
  game_over g = false ->
  exists report g',
    process_user_input r user_input g = Returned (Round report) g'
    /\ game_over g' = (3 <=? current_round g + 1)
    /\ (shown_final report = None <-> current_round g + 1 < 3)
    /\ (forall f, shown_final report = Some f ->
          _get_final_result (to_dict g') g' = Returned f g').
Proof.
  intros Hopen.
  destruct (process_user_input_round r user_input g Hopen)
    as (um & bm & w & inv & report & -> & Hclose & _).
  do 2 eexists. split; [reflexivity|].
  destruct (closing_block_of_state
              (state_after (update_game_state um bm w inv g))
              (state_after (update_game_state um bm w inv g)))
    as (final & Hfinal & Hnone & Hsome).
  rewrite Hfinal in Hclose. injection Hclose as ->.
  assert (game_over (state_after (update_game_state um bm w inv g))
          = (3 <=? current_round g + 1)) as Hover.
  { rewrite update_game_state_closed. cbn. by rewrite Hopen. }
  split; [done|]. split; [|done].
  rewrite Hnone, Hover. rewrite Z.leb_gt. done.
Qed.

Lemma referee_closes_match_on_third_round_witness :
  exists report g',
    process_user_input (mkDraws 0 0) "paper"
      (mkGameState 2 1 0 false false false (Some "x") None (Some "invalid"))
    = Returned (Round report) g'
    /\ game_over g' = true
    /\ shown_final report <> None.
Proof.
  destruct (referee_closes_match_on_third_round (mkDraws 0 0) "paper"
              (mkGameState 2 1 0 false false false (Some "x") None
                 (Some "invalid")) eq_refl)
    as (report & g' & H1 & H2 & H3 & _).
  exists report, g'. split; [exact H1|]. split; [exact H2|].
  intros Hnone. apply H3 in Hnone. vm_compute in Hnone. discriminate Hnone.
Defined.

Lemma is_str_some (s lit : string) :
  is_str (Some s) lit = true <-> s = lit.
Proof. cbn. apply String.eqb_eq. Qed.

(** With the match open, the bot keeps its bomb back in the opening round
    and once it is spent: the move recorded for the bot is not bomb, and the
    bot's flag is what it was. *)
Theorem bot_holds_bomb_back (r : random_draws) (user_input : string)
    (g : GameState) :
  game_over g = false ->
  current_round g = 0 \/ bot_bomb_used g = true ->
  last_bot_move (state_after (process_user_input r user_input g)) <> Some "bomb"
  /\ bot_bomb_used (state_after (process_user_input r user_input g))
     = bot_bomb_used g.
Proof.
  intros Hopen Hback.
  destruct (process_user_input_round r user_input g Hopen)
    as (um & bm & w & inv & report & -> & _ & Hinv & Hval).
  cbn [state_after]. rewrite update_game_state_closed.
  cbn [last_bot_move bot_bomb_used].
  destruct inv.
  - destruct (Hinv eq_refl) as (_ & -> & _). cbn [negb andb].
    by rewrite orb_false_r.
  - destruct (Hval eq_refl) as (_ & _ & m & -> & Hm & _).
    rewrite get_bot_move_cases in Hm. injection Hm as Hm.
    assert (negb (bot_bomb_used g) && (1 <=? current_round g) = false) as Hno.
    { destruct Hback as [-> | ->]; [apply andb_false_r|done]. }
    rewrite Hno in Hm. cbn [andb] in Hm. subst m.
    destruct (random_choice_standard r) as [_ Hne].
    apply String.eqb_neq in Hne as Hne'.
    split; [congruence|]. cbn [negb andb is_str]. by rewrite Hne', orb_false_r.
Qed.

Lemma bot_holds_bomb_back_witness :
  last_bot_move
    (state_after (process_user_input (mkDraws 0 1) "scissors" GameState_default))
  <> Some "bomb"
  /\ bot_bomb_used
       (state_after (process_user_input (mkDraws 0 1) "scissors" GameState_default))
     = false.
Proof.
  apply (bot_holds_bomb_back (mkDraws 0 1) "scissors" GameState_default);
    [reflexivity | left; reflexivity].
Defined.

(** With the match open and the user's bomb unspent, playing it never loses
    the round: the bot does not score, the user's flag is set, and the round
    is a win for the user unless the bot answered with its own bomb, which
    makes it a draw. *)
Theorem user_bomb_never_loses (r : random_draws) (user_input : string)
    (g : GameState) :
  game_over g = false ->
  user_bomb_used g = false ->
  strip (lower user_input) = "bomb" ->
  bot_score (state_after (process_user_input r user_input g)) = bot_score g
  /\ user_bomb_used (state_after (process_user_input r user_input g)) = true
  /\ last_user_move (state_after (process_user_input r user_input g))
     = Some "bomb"
  /\ ((last_bot_move (state_after (process_user_input r user_input g))
       = Some "bomb"
       /\ last_round_result (state_after (process_user_input r user_input g))
          = Some "draw"
       /\ user_score (state_after (process_user_input r user_input g))
          = user_score g)
      \/ (last_bot_move (state_after (process_user_input r user_input g))
          <> Some "bomb"
          /\ last_round_result (state_after (process_user_input r user_input g))
             = Some "user"
          /\ user_score (state_after (process_user_input r user_input g))
             = user_score g + 1)).
Proof.
  intros Hopen Hfree Hbomb.
  destruct (process_user_input_round r user_input g Hopen)
    as (um & bm & w & inv & report & -> & _ & Hinv & Hval).
  cbn [state_after]. rewrite update_game_state_closed.
  destruct inv.
  - destruct (Hinv eq_refl) as (_ & _ & Hno). exfalso. apply Hno.
    rewrite Hbomb. split; [unfold valid_moves; repeat constructor|done].
  - destruct (Hval eq_refl) as (-> & _ & m & -> & _ & ->).
    rewrite Hbomb, winner_cases. cbn.
    destruct (String.eqb_spec m "bomb") as [-> | Hm]; cbn.
    + rewrite orb_true_r. split; [done|]. split; [done|]. split; [done|].
      by left.
    + rewrite orb_true_r. split; [done|]. split; [done|]. split; [done|].
      right. split; [congruence|done].
Qed.

Lemma user_bomb_never_loses_witness :
  bot_score (state_after (process_user_input (mkDraws 0 0) "Bomb" GameState_default))
  = 0
  /\ user_bomb_used
       (state_after (process_user_input (mkDraws 0 0) "Bomb" GameState_default))
     = true.
Proof.
  destruct (user_bomb_never_loses (mkDraws 0 0) "Bomb" GameState_default
              eq_refl eq_refl eq_refl) as (H1 & H2 & _).
  split; assumption.
Defined.

(** ** Whole matches *)

Lemma play_after_game_over (more : list (random_draws * string)) (g : GameState) :
  game_over g = true -> play more g = g.
Proof.
  intros Hover. induction more as [|[r user_input] rest IH]; [done|].
  cbn [play].
  destruct (process_user_input_cases r user_input g)
    as [[_ ->]|[Hopen _]]; [done|congruence].
Qed.

Lemma play_round_count_from (turns : list (random_draws * string)) (g : GameState) :
  game_over g = (3 <=? current_round g) -> current_round g <= 3 ->
  current_round (play turns g)
  = Z.min (current_round g + Z.of_nat (length turns)) 3
  /\ game_over (play turns g) = (3 <=? current_round (play turns g)).
Proof.
  revert g. induction turns as [|[r user_input] rest IH]; intros g Hflag Hle.
  - cbn [play length]. split; [lia|done].
  - cbn [play length].
    destruct (process_user_input_cases r user_input g)
      as [[Hover ->]|[Hopen (um & bm & w & inv & ->)]].
    + rewrite (play_after_game_over rest g Hover).
      rewrite Hover in Hflag. symmetry in Hflag. apply Z.leb_le in Hflag.
      split; [lia|]. rewrite Hover. symmetry. apply Z.leb_le. lia.
    + rewrite Hopen in Hflag. symmetry in Hflag. apply Z.leb_gt in Hflag.
      destruct (IH (state_after (update_game_state um bm w inv g))) as [Hn Hf].
      * rewrite update_game_state_closed. cbn. by rewrite Hopen.
      * rewrite update_game_state_closed. cbn. lia.
      * split; [|exact Hf]. rewrite Hn, update_game_state_closed. cbn. lia.
Qed.

(** Through the referee a match lasts exactly three inputs: after [n]
    inputs following a reset the counter is [n] capped at 3, whatever was
    typed, and [game_over] is set exactly from the third input on. *)
Theorem play_round_count (prior : GameState)
    (turns : list (random_draws * string)) :
  current_round (play turns (reset prior)) = Z.min (Z.of_nat (length turns)) 3
  /\ (game_over (play turns (reset prior)) = true <-> (3 <= length turns)%nat).
Proof.
  destruct (play_round_count_from turns (reset prior)) as [Hn Hf]; [done..|].
  cbn [reset set_last_round_result set_last_bot_move set_last_user_move
         set_game_over set_bot_bomb_used set_user_bomb_used set_bot_score
         set_user_score set_current_round current_round] in Hn.
  split; [rewrite Hn; f_equal; lia|].
  rewrite Hf, Hn, Z.leb_le. lia.
Qed.

(** Once three inputs have been processed the state is frozen: whatever is
    typed afterwards changes no field, until the next reset. *)
Theorem play_frozen_after_three (prior : GameState)
    (turns more : list (random_draws * string)) :
  (3 <= length turns)%nat ->
  play more (play turns (reset prior)) = play turns (reset prior).
Proof.
  intros Hlen. apply play_after_game_over.
  destruct (play_round_count_from turns (reset prior)) as [Hn Hf]; [done..|].
  rewrite Hf, Hn. apply Z.leb_le.
  cbn [reset set_last_round_result set_last_bot_move set_last_user_move
         set_game_over set_bot_bomb_used set_user_bomb_used set_bot_score
         set_user_score set_current_round current_round]. lia.
Qed.

Lemma play_frozen_after_three_witness :
  play [(mkDraws 0 0, "rock"); (mkDraws 0 1, "bomb")]
    (play [(mkDraws 0 2, "Rock"); (mkDraws 0 0, "bad");
           (mkDraws 4503599627370496 1, " BOMB ")] (reset finished_match))
  = play [(mkDraws 0 2, "Rock"); (mkDraws 0 0, "bad");
          (mkDraws 4503599627370496 1, " BOMB ")] (reset finished_match).
Proof.
  apply (play_frozen_after_three finished_match
           [(mkDraws 0 2, "Rock"); (mkDraws 0 0, "bad");
            (mkDraws 4503599627370496 1, " BOMB ")]).
  cbn [length]. lia.
Defined.

Lemma play_invariant (P : GameState -> Prop)
    (turns : list (random_draws * string)) (g : GameState) :
  (forall g um bm w inv,
     game_over g = false -> P g ->
     (inv = true ->
      bm = None /\ (um <> Some "bomb" \/ user_bomb_used g = true)) ->
     P (state_after (update_game_state um bm w inv g))) ->
  P g -> P (play turns g).
Proof.
  intros Hstep. revert g.
  induction turns as [|[r user_input] rest IH]; intros g Hg; [done|].
  cbn [play]. apply IH.
  destruct (game_over g) eqn:Hover.
  - destruct (process_user_input_cases r user_input g)
      as [[_ ->]|[Hopen _]]; [done|congruence].
  - destruct (process_user_input_round r user_input g Hover)
      as (um & bm & w & inv & report & -> & _ & Hinv & _).
    cbn [state_after]. apply Hstep; [done..|].
    intros Hi. destruct (Hinv Hi) as (-> & -> & Hno). split; [done|].
    destruct (decide (user_input = "bomb")) as [-> | Hne]; [|left; congruence].
    right. destruct (user_bomb_used g); [done|].
    exfalso. apply Hno. split; [vm_compute; repeat constructor|done].
Qed.

(** Through the referee the scores stay non-negative and never add up to
    more than the number of rounds played. *)
Theorem play_scores_bounded (prior : GameState)
    (turns : list (random_draws * string)) :
  0 <= user_score (play turns (reset prior))
  /\ 0 <= bot_score (play turns (reset prior))
  /\ user_score (play turns (reset prior)) + bot_score (play turns (reset prior))
     <= current_round (play turns (reset prior)).
Proof.
  apply (play_invariant
           (fun g => 0 <= user_score g /\ 0 <= bot_score g
                     /\ user_score g + bot_score g <= current_round g)).
  - intros g um bm w inv _ (Hu & Hb & Hsum) _.
    rewrite update_game_state_closed. cbn.
    destruct (negb inv), (is_str w "user"), (is_str w "bot"); cbn; lia.
  - cbn. lia.
Qed.

(** Through the referee, a side whose last recorded move is bomb has its
    bomb flag set: a bomb is never on record as played for free. *)
Theorem play_recorded_bomb_is_spent (prior : GameState)
    (turns : list (random_draws * string)) :
  (last_user_move (play turns (reset prior)) = Some "bomb" ->
   user_bomb_used (play turns (reset prior)) = true)
  /\ (last_bot_move (play turns (reset prior)) = Some "bomb" ->
      bot_bomb_used (play turns (reset prior)) = true).
Proof.
  apply (play_invariant
           (fun g => (last_user_move g = Some "bomb" -> user_bomb_used g = true)
                     /\ (last_bot_move g = Some "bomb" -> bot_bomb_used g = true))).
  - intros g um bm w inv Hopen _ Hinv.
    rewrite update_game_state_closed. cbn.
    destruct inv; cbn.
    + rewrite !orb_false_r.
      destruct (Hinv eq_refl) as [-> [Hne | Hspent]]; split; done.
    + split; intros ->; cbn; by rewrite orb_true_r.
  - cbn. split; discriminate.
Qed.

(** ** Direct tool calls *)

Lemma run_call_reads_only (c : tool_call) (g : GameState) :
  is_update_call c = false -> run_call c g = g.
Proof.
  destruct c as [m u|u b|um bm w inv| |r]; cbn [run_call is_update_call];
    try done; intros _.
  - by destruct (validate_move_returns m u g) as (v & -> & _).
  - by rewrite get_bot_move_cases.
Qed.

Lemma run_calls_from (cs : list tool_call) (g : GameState) :
  game_over g = (3 <=? current_round g) ->
  current_round (run_calls cs g)
  = current_round g + Z.of_nat (length (List.filter is_update_call cs))
  /\ game_over (run_calls cs g) = (3 <=? current_round (run_calls cs g)).
Proof.
  revert g. induction cs as [|c rest IH]; intros g Hflag.
  - cbn. split; [lia|done].
  - unfold run_calls. cbn [fold_left List.filter]. fold (run_calls rest (run_call c g)).
    destruct (is_update_call c) eqn:Hc.
    + destruct c as [| |um bm w inv| |]; try discriminate Hc.
      cbn [run_call].
      destruct (IH (state_after (update_game_state um bm w inv g))) as [Hn Hf].
      * rewrite update_game_state_closed. cbn. rewrite Hflag.
        destruct (Z.leb_spec 3 (current_round g)),
          (Z.leb_spec 3 (current_round g + 1)); cbn; first [done | lia].
      * split; [|exact Hf]. rewrite Hn, update_game_state_closed. cbn [length current_round].
        lia.
    + rewrite (run_call_reads_only c g Hc). by apply IH.
Qed.

(** Called directly, in any order and number after a reset, the tools keep
    two facts: the counter equals the number of [update_game_state] calls
    made (no other tool moves it, and nothing caps it), and [game_over] is
    set exactly when the counter is at least 3. *)
Theorem tool_calls_count_rounds (prior : GameState) (cs : list tool_call) :
  current_round (run_calls cs (reset prior))
  = Z.of_nat (length (List.filter is_update_call cs))
  /\ game_over (run_calls cs (reset prior))
     = (3 <=? current_round (run_calls cs (reset prior))).
Proof.
  destruct (run_calls_from cs (reset prior)) as [Hn Hf]; [done|].
  split; [|exact Hf]. rewrite Hn. cbn. lia.
Qed.
